(** * gns3-converter: the [Converter] class of [gns3converter/converter.py]

    A shallow embedding of the topology grouper ([get_instances],
    [process_topology]), the node builder ([generate_nodes]) and the link
    resolver ([generate_links], [convert_destination_to_id],
    [add_node_connections]) together with the properties the specification
    states about them.

    Python dictionaries with a fixed set of keys (ports, nodes, links) are
    records; dictionaries with free keys (the raw topology, the attributes
    of a device) are [gmap]s with string keys; Python lists are lists.
    Code that can raise lives in the [result] monad.

    The classes [LegacyTopology] and [Node] and the static tables are not
    among the sources.  The code of the converter is embedded over
    interfaces for them; what the specification says they do is modelled
    in implementations of these interfaces, marked as such. *)

From Stdlib Require Import ZArith Ascii String.
From stdpp Require Import base option list gmap strings pretty sorting.

Local Open Scope Z_scope.
Local Open Scope string_scope.
Local Open Scope list_scope.

(** ** Exceptions *)

Inductive exn :=
  | KeyError (key : string)
  | IndexError
  | ValueError.

Inductive result (A : Type) :=
  | Ok (a : A)
  | Raise (e : exn).
Arguments Ok {A} a.
Arguments Raise {A} e.

Global Instance result_ret : MRet result := λ A, Ok.
Global Instance result_bind : MBind result := λ A B f m,
  match m with
  | Ok a => f a
  | Raise e => Raise e
  end.

(** [d[k]] on a dictionary with string keys. *)
Definition getitem {A} (d : gmap string A) (k : string) : result A :=
  match d !! k with
  | Some v => Ok v
  | None => Raise (KeyError k)
  end.

(** ** Python built-ins used by the converter *)

(** [str(x)] for an integer or [None]. *)
Definition py_str (x : option Z) : string :=
  match x with
  | Some z => pretty z
  | None => "None"
  end.

(** [sorted(xs)] on strings: ascending by code point. *)
Definition sorted (xs : list string) : list string := merge_sort String.le xs.

(** [sorted(d)] on a dictionary: its keys, ascending. *)
Definition sorted_keys {A} (d : gmap string A) : list string :=
  sorted (elements (dom d)).

(** [c.upper()] on an ASCII character. *)
Definition upper (c : ascii) : ascii :=
  let n := nat_of_ascii c in
  if ((97 <=? n) && (n <=? 122))%nat then ascii_of_nat (n - 32) else c.

(** [s.replace(old, new)] where [old] is a single character. *)
Fixpoint replace (old : ascii) (new : string) (s : string) : string :=
  match s with
  | EmptyString => EmptyString
  | String c s' =>
      if decide (c = old) then new +:+ replace old new s'
      else String c (replace old new s')
  end.

(** [c in s] for a single character. *)
Fixpoint contains (c : ascii) (s : string) : bool :=
  match s with
  | EmptyString => false
  | String c' s' => if decide (c' = c) then true else contains c s'
  end.

(** [s.index(c)] for a single character; [ValueError] when [c] is not in
    [s]. *)
Fixpoint str_index (c : ascii) (s : string) : result nat :=
  match s with
  | EmptyString => Raise ValueError
  | String c' s' =>
      if decide (c' = c) then Ok O
      else i ← str_index c s'; Ok (S i)
  end.

(** [s[0:n]] *)
Fixpoint slice_to (n : nat) (s : string) : string :=
  match n, s with
  | S n', String c s' => String c (slice_to n' s')
  | _, _ => EmptyString
  end.

(** [s.startswith(p)] *)
Fixpoint startswith (p s : string) : bool :=
  match p, s with
  | EmptyString, _ => true
  | String a p', String b s' => if decide (a = b) then startswith p' s' else false
  | String _ _, EmptyString => false
  end.

(** ** Data model of the link resolver *)

(** A port dictionary: keys [id], [name] and, once a link is attached,
    [link_id] and [description]. *)
Record port := Port {
  port_id : Z;
  port_name : string;
  port_link_id : option Z;
  port_description : option string
}.

(** A node dictionary: keys [id], [type], [properties]['name'],
    [label]['text'], [x], [y], [router_id] (routers only), the remaining
    [properties] and [ports].  The positions [x] and [y] are only copied,
    never computed with: they are kept as the configuration has them. *)
Record node := Node {
  node_id : Z;
  node_type : string;
  node_name : string;
  node_label : string;
  node_x : string;
  node_y : string;
  node_router_id : option Z;
  node_properties : gmap string string;
  node_ports : list port
}.

(** A candidate link as the node builder leaves it in [self.links]. *)
Record candidate := Candidate {
  cand_source_dev : string;
  cand_source_port_name : string;
  cand_source_node_id : Z;
  cand_source_port_id : Z;
  cand_dest_dev : string;
  cand_dest_port : string
}.

(** A link dictionary; [link_id] is the key [id], absent until the
    numbering loop sets it. *)
Record link := Link {
  description : string;
  destination_node_id : option Z;
  destination_port_id : option Z;
  source_port_id : Z;
  source_node_id : Z;
  link_id : option Z
}.

Global Instance port_eq_dec : EqDecision port.
Proof. solve_decision. Defined.
Global Instance node_eq_dec : EqDecision node.
Proof. solve_decision. Defined.
Global Instance link_eq_dec : EqDecision link.
Proof. solve_decision. Defined.
Global Instance link_inhabited : Inhabited link :=
  populate (Link "" None None 0 0 None).

(** The [device] dictionary returned by [convert_destination_to_id]. *)
Record device := Device {
  device_id : option Z;
  device_name : option string
}.

(** ** convert_destination_to_id *)

(** [for port in node['ports']: if destination_port == port['name']: ...; break] *)
Fixpoint port_id_by_name (destination_port : string) (ports : list port) : option Z :=
  match ports with
  | [] => None
  | p :: ps =>
      if decide (destination_port = port_name p) then Some (port_id p)
      else port_id_by_name destination_port ps
  end.

(** The loop of the branch [destination_node != 'NIO']. *)
Fixpoint convert_named (destination_node destination_port : string)
    (nodes : list node) : device * option Z :=
  match nodes with
  | [] => (Device None None, None)
  | n :: ns =>
      if decide (destination_node = node_name n) then
        (Device (Some (node_id n)) (Some destination_node),
         port_id_by_name destination_port (node_ports n))
      else convert_named destination_node destination_port ns
  end.

(** The inner loop of the [NIO] branch: all three variables are set
    together at the first port whose name matches. *)
Fixpoint cloud_port (destination_port : string) (n : node) (ports : list port)
    : device * option Z :=
  match ports with
  | [] => (Device None None, None)
  | p :: ps =>
      if decide (destination_port = port_name p) then
        (Device (Some (node_id n)) (Some (node_name n)), Some (port_id p))
      else cloud_port destination_port n ps
  end.

(** The outer loop of the [NIO] branch; the [break] after the inner loop
    leaves at the first node of type Cloud. *)
Fixpoint convert_cloud (destination_port : string) (nodes : list node)
    : device * option Z :=
  match nodes with
  | [] => (Device None None, None)
  | n :: ns =>
      if decide (node_type n = "Cloud") then
        cloud_port destination_port n (node_ports n)
      else convert_cloud destination_port ns
  end.

Definition convert_destination_to_id (destination_node destination_port : string)
    (nodes : list node) : device * option Z :=
  if decide (destination_node ≠ "NIO") then
    convert_named destination_node destination_port nodes
  else
    convert_cloud destination_port nodes.

(** ** device_id_from_name and port_id_from_name *)

(** [for node in nodes: if device_name == node['properties']['name']: ...; break] *)
Fixpoint device_id_from_name (device_name : string) (nodes : list node)
    : option Z :=
  match nodes with
  | [] => None
  | n :: ns =>
      if decide (device_name = node_name n) then Some (node_id n)
      else device_id_from_name device_name ns
  end.

(** The outer loop of [port_id_from_name] leaves at the first node with the
    given id; the inner loop is the one of [convert_destination_to_id]. *)
Fixpoint port_id_from_name (port_name : string) (device_id : option Z)
    (nodes : list node) : option Z :=
  match nodes with
  | [] => None
  | n :: ns =>
      if decide (device_id = Some (node_id n)) then
        port_id_by_name port_name (node_ports n)
      else port_id_from_name port_name device_id ns
  end.

(** ** add_node_connections *)

(** [for node in nodes: if node['id'] == node_id: ...; break] *)
Fixpoint get_node_name_from_id (nid : option Z) (nodes : list node) : string :=
  match nodes with
  | [] => ""
  | n :: ns =>
      if decide (Some (node_id n) = nid) then node_name n
      else get_node_name_from_id nid ns
  end.

(** The inner loop of [get_port_name_from_id]; [port_name0] is the value the
    variable [port_name] holds when the loop starts. *)
Fixpoint port_name_by_id (pid : option Z) (ports : list port) (port_name0 : string)
    : string :=
  match ports with
  | [] => port_name0
  | p :: ps =>
      if decide (Some (port_id p) = pid) then port_name p
      else port_name_by_id pid ps port_name0
  end.

(** The outer loop of [get_port_name_from_id]: it has no [break], every node
    with the given id is visited. *)
Fixpoint get_port_name_loop (nid pid : option Z) (nodes : list node)
    (port_name0 : string) : string :=
  match nodes with
  | [] => port_name0
  | n :: ns =>
      get_port_name_loop nid pid ns
        (if decide (Some (node_id n) = nid)
         then port_name_by_id pid (node_ports n) port_name0
         else port_name0)
  end.

Definition get_port_name_from_id (nid pid : option Z) (nodes : list node) : string :=
  get_port_name_loop nid pid nodes "".

(** ['connected to %s on port %s' % (node_name, port_name)] *)
Definition connected_to (nid pid : option Z) (nodes : list node) : string :=
  "connected to " +:+ get_node_name_from_id nid nodes +:+
  " on port " +:+ get_port_name_from_id nid pid nodes.

(** [port['link_id'] = link['id']; port['description'] = desc] *)
Definition annotate (p : port) (lid : Z) (desc : string) : port :=
  Port (port_id p) (port_name p) (Some lid) (Some desc).

(** [for port in node['ports']: if port['id'] == pid: annotate; break].
    Reading [link['id']] raises when the link has no such key. *)
Fixpoint annotate_ports (pid : option Z) (lid : option Z) (desc : string)
    (ports : list port) : result (list port) :=
  match ports with
  | [] => Ok []
  | p :: ps =>
      if decide (Some (port_id p) = pid) then
        match lid with
        | Some i => Ok (annotate p i desc :: ps)
        | None => Raise (KeyError "id")
        end
      else
        ps' ← annotate_ports pid lid desc ps; Ok (p :: ps')
  end.

Definition set_ports (n : node) (ports : list port) : node :=
  Node (node_id n) (node_type n) (node_name n) (node_label n)
       (node_x n) (node_y n) (node_router_id n) (node_properties n) ports.

(** The loop over [nodes] of [add_node_connections]. *)
Fixpoint connect_nodes (lk : link) (src_desc dest_desc : string)
    (nodes : list node) : result (list node) :=
  match nodes with
  | [] => Ok []
  | n :: ns =>
      n' ← (if decide (node_id n = source_node_id lk) then
              ps ← annotate_ports (Some (source_port_id lk)) (link_id lk)
                     src_desc (node_ports n);
              Ok (set_ports n ps)
            else if decide (Some (node_id n) = destination_node_id lk) then
              ps ← annotate_ports (destination_port_id lk) (link_id lk)
                     dest_desc (node_ports n);
              Ok (set_ports n ps)
            else Ok n);
      ns' ← connect_nodes lk src_desc dest_desc ns;
      Ok (n' :: ns')
  end.

Definition add_node_connections (lk : link) (nodes : list node)
    : result (list node) :=
  let src_desc :=
    connected_to (destination_node_id lk) (destination_port_id lk) nodes in
  let dest_desc :=
    connected_to (Some (source_node_id lk)) (Some (source_port_id lk)) nodes in
  connect_nodes lk src_desc dest_desc nodes.

(** ** generate_links *)

(** The static tables of [gns3converter.adapters] and
    [gns3converter.interfaces], which the converter only reads:
    [INTERFACE_RE.search] as a predicate on port names and [PORT_TYPES] as a
    dictionary from upper-case letters to adapter names. *)
Class Adapters := {
  INTERFACE_RE_search : string → bool;
  PORT_TYPES : gmap ascii string
}.

(** Expansion of the destination port name (first statement of the loop). *)
Definition expand_port `{Adapters} (dest_port : string) : result string :=
  if INTERFACE_RE_search dest_port then
    match dest_port with
    | EmptyString => Raise IndexError
    | String int_type _ =>
        match PORT_TYPES !! upper int_type with
        | Some full => Ok (replace int_type full dest_port)
        | None => Raise (KeyError (String (upper int_type) EmptyString))
        end
    end
  else Ok dest_port.

(** One pass of the first loop: the link dictionary built from a candidate. *)
Definition resolve_link `{Adapters} (nodes : list node) (c : candidate)
    : result link :=
  dest_port ← expand_port (cand_dest_port c);
  let '(dest_node, dest_port_id) :=
    convert_destination_to_id (cand_dest_dev c) dest_port nodes in
  let desc :=
    "Link from " +:+ cand_source_dev c +:+ " port " +:+ cand_source_port_name c
    +:+ " to " +:+ default "None" (device_name dest_node)
    +:+ " port " +:+ dest_port in
  Ok (Link desc (device_id dest_node) dest_port_id
           (cand_source_port_id c) (cand_source_node_id c) None).

(** The first loop: [links] after all candidates are appended. *)
Fixpoint resolve_links `{Adapters} (nodes : list node) (cs : list candidate)
    : result (list link) :=
  match cs with
  | [] => Ok []
  | c :: cs' =>
      lk ← resolve_link nodes c;
      lks ← resolve_links nodes cs';
      Ok (lk :: lks)
  end.

(** The second loop works on a list of dictionaries that it mutates while
    iterating over it.  The dictionaries live in a heap ([ls_heap], addressed
    by allocation order) and the Python list [links] is a list of
    references into it. *)
Record loop_state := LoopState {
  ls_heap : list link;
  ls_links : list nat;
  ls_link_id : Z;
  ls_nodes : list node
}.

Definition t_link_of (lk : link) : string :=
  py_str (Some (source_node_id lk)) +:+ ":" +:+ py_str (Some (source_port_id lk)).

Definition d_link_of (lk : link) : string :=
  py_str (destination_node_id lk) +:+ ":" +:+ py_str (destination_port_id lk).

(** [links.remove(x)]: delete the first entry that is [x] or equal to [x]. *)
Fixpoint list_remove (heap : list link) (x : nat) (links : list nat) : list nat :=
  match links with
  | [] => []
  | r :: rs =>
      if decide (r = x ∨ heap !!! r = heap !!! x) then rs
      else r :: list_remove heap x rs
  end.

(** [for link2 in links: if t_link == d_link: links.remove(link2); break];
    [rest] is what the inner iterator has still to visit. *)
Fixpoint remove_duplicate (heap : list link) (t_link : string)
    (links rest : list nat) : list nat :=
  match rest with
  | [] => links
  | r2 :: rest' =>
      if decide (t_link = d_link_of (heap !!! r2)) then list_remove heap r2 links
      else remove_duplicate heap t_link links rest'
  end.

Definition set_link_id (lk : link) (i : Z) : link :=
  Link (description lk) (destination_node_id lk) (destination_port_id lk)
       (source_port_id lk) (source_node_id lk) (Some i).

(** The body of [for link in links] at iterator position [i], for at most
    [n] further rounds.  The list iterator yields [links[i]] as long as
    [i < len(links)], whatever happened to the list in between. *)
Fixpoint number_links (n i : nat) (s : loop_state) : result loop_state :=
  match n with
  | O => Ok s
  | S n' =>
      match ls_links s !! i with
      | None => Ok s
      | Some r =>
          let lk := ls_heap s !!! r in
          let links' :=
            remove_duplicate (ls_heap s) (t_link_of lk) (ls_links s) (ls_links s) in
          let lk' := set_link_id lk (ls_link_id s) in
          let heap' := <[r := lk']> (ls_heap s) in
          nodes' ← add_node_connections lk' (ls_nodes s);
          number_links n' (S i) (LoopState heap' links' (ls_link_id s + 1) nodes')
      end
  end.

(** The value of the Python list [links]: the dictionaries it refers to. *)
Definition deref (heap : list link) (links : list nat) : list link :=
  (λ r, heap !!! r) <$> links.

(** [generate_links] returns [links]; the node list is mutated in place and
    is returned with it. *)
Definition generate_links `{Adapters} (self_links : list candidate)
    (nodes : list node) : result (list link * list node) :=
  links ← resolve_links nodes self_links;
  s ← number_links (length links) 0
        (LoopState links (seq 0 (length links)) 1 nodes);
  Ok (deref (ls_heap s) (ls_links s), ls_nodes s).

(** ** get_instances *)

(** [ipaddress.ip_address] of the Python standard library, on strings:
    it returns an address object or raises [ValueError], here [None]. *)
Class IpAddress := {
  ip : Type;
  ip_address : string → option ip
}.

(** The loop of [get_instances] over the sorted keys. *)
Fixpoint get_instances_loop `{IpAddress} (items : list string)
    (instances : list string) : result (list string) :=
  match items with
  | [] => Ok instances
  | item :: rest =>
      if contains ":" item then
        delim_pos ← str_index ":" item;
        let addr := slice_to delim_pos item in
        match ip_address addr with
        | Some _ => get_instances_loop rest (instances ++ [item])
        | None => get_instances_loop rest instances
        end
      else get_instances_loop rest instances
  end.

Definition get_instances `{IpAddress} {A} (config : gmap string A)
    : result (list string) :=
  get_instances_loop (sorted_keys config) [].

(** ** process_topology *)

(** A value of the raw topology below an instance: a scalar option or a
    sub-section (a [dict]) of attributes. *)
Inductive item_value :=
  | Scalar (v : string)
  | Section_ (attrs : gmap string string).

(** The static table of [gns3converter.models]; only its key set is used
    here. *)
Class Models := {
  MODEL_TRANSFORM : gmap string string
}.

(** The class [LegacyTopology] of [gns3converter/topology.py], which is
    not among the sources, as [process_topology] uses it: the constructor,
    the two methods and the attributes [hv_id], [devices] and [conf].  The
    methods are functions on the instance: they return, and they leave
    the raw mapping as it is. *)
Class TopologyClass := {
  topology : Type;
  devices_t : Type;
  conf_t : Type;
  LegacyTopology :
    list string → gmap string (gmap string item_value) → topology;
  add_conf_item : string → string → topology → topology;
  add_physical_item : string → string → topology → topology;
  hv_id : topology → nat;
  set_hv_id : nat → topology → topology;
  devices : topology → devices_t;
  conf : topology → conf_t
}.

(** The body of [for item in sorted(old_top[instance])]. *)
Definition process_item `{Models} `{TopologyClass}
    (section : gmap string item_value) (instance item : string)
    (topo : topology) : topology :=
  match section !! item with
  | Some (Section_ _) =>
      if decide (item ∈ dom MODEL_TRANSFORM) then add_conf_item instance item topo
      else add_physical_item instance item topo
  | _ => topo
  end.

(** [topo.hv_id += 1] *)
Definition inc_hv_id `{TopologyClass} (topo : topology) : topology :=
  set_hv_id (S (hv_id topo)) topo.

(** The loop [for instance in sorted(sections)]. *)
Fixpoint process_instances `{Models} `{TopologyClass}
    (old_top : gmap string (gmap string item_value))
    (instances : list string) (topo : topology) : result topology :=
  match instances with
  | [] => Ok topo
  | instance :: rest =>
      section ← getitem old_top instance;
      let topo' :=
        foldl (λ t item, process_item section instance item t) topo
              (sorted_keys section) in
      process_instances old_top rest (inc_hv_id topo')
  end.

Definition process_topology `{Models} `{TopologyClass} (sections : list string)
    (old_top : gmap string (gmap string item_value))
    : result (devices_t * conf_t) :=
  let topo := LegacyTopology sections old_top in
  topo ← process_instances old_top (sorted sections) topo;
  Ok (devices topo, conf topo).

(** *** The topology class of the specification *)

(** A device record, the dictionary [devices[device]].  The keys the node
    builder reads by name are fields, each possibly absent; the other
    keys are those of [other_items (dr_items r)]. *)
Record device_record := DeviceRecord {
  dr_hv_id : option nat;
  dr_node_id : option Z;
  dr_x : option string;
  dr_y : option string;
  dr_type : option string;
  dr_model : option string;
  dr_items : gmap string string
}.

Definition empty_record : device_record :=
  DeviceRecord None None None None None None ∅.

(** The keys that are fields of [device_record]. *)
Definition named_keys : list string :=
  ["hv_id"; "node_id"; "x"; "y"; "type"; "model"].

(** The remaining keys of the dictionary: a named key is never looked up
    in [dr_items]. *)
Definition other_items (m : gmap string string) : gmap string string :=
  filter (λ kv, kv.1 ∉ named_keys) m.

(** How the name of a physical item, such as [ROUTER R1], divides into the
    device name and the role keyword; the specification leaves it open. *)
Class DeviceNames := {
  device_typename : string → string * string
}.

(** Modelled from the spec: the state of a [LegacyTopology] of
    [gns3converter/topology.py], which is not among the sources: the raw
    mapping, the host-instance counter, the next node id, the device
    records by device name and the configuration snippets. *)
Record legacy_topology := Topology {
  lt_old_top : gmap string (gmap string item_value);
  lt_hv_id : nat;
  lt_nid : Z;
  lt_devices : gmap string device_record;
  lt_conf : gmap string (gmap string string)
}.

(** [old_top[instance][item]] where it is a sub-section. *)
Definition attributes (old_top : gmap string (gmap string item_value))
    (instance item : string) : gmap string string :=
  match old_top !! instance ≫= (.!! item) with
  | Some (Section_ attrs) => attrs
  | _ => ∅
  end.

(** Last write wins: the new value if there is one. *)
Definition last_write {A} (new old : option A) : option A :=
  match new with
  | Some a => Some a
  | None => old
  end.

(** Modelled from the spec: [LegacyTopology.add_conf_item], which routes a
    configuration item into the configuration snippets, unmodified. *)
Definition spec_add_conf_item (instance item : string) (topo : legacy_topology)
    : legacy_topology :=
  Topology (lt_old_top topo) (lt_hv_id topo) (lt_nid topo) (lt_devices topo)
           (<[item := attributes (lt_old_top topo) instance item]> (lt_conf topo)).

(** Modelled from the spec: [LegacyTopology.add_physical_item], which
    merges the physical attributes into the record of the device (last
    write wins per key), sets its role keyword, its [hv_id] to the current
    counter and its [node_id] to the next node id, which is used up. *)
Definition spec_add_physical_item `{DeviceNames} (instance item : string)
    (topo : legacy_topology) : legacy_topology :=
  let attrs := attributes (lt_old_top topo) instance item in
  let name := (device_typename item).1 in
  let old := default empty_record (lt_devices topo !! name) in
  let new := DeviceRecord (Some (lt_hv_id topo)) (Some (lt_nid topo))
               (last_write (attrs !! "x") (dr_x old))
               (last_write (attrs !! "y") (dr_y old))
               (Some (device_typename item).2)
               (last_write (attrs !! "model") (dr_model old))
               (other_items attrs ∪ dr_items old) in
  Topology (lt_old_top topo) (lt_hv_id topo) (lt_nid topo + 1)
           (<[name := new]> (lt_devices topo)) (lt_conf topo).

(** Modelled from the spec: the class [LegacyTopology]; positions in the
    sorted instance list count from 0, node ids from 1. *)
Definition spec_topology `{DeviceNames} : TopologyClass := {|
  topology := legacy_topology;
  devices_t := gmap string device_record;
  conf_t := gmap string (gmap string string);
  LegacyTopology _ old_top := Topology old_top 0 1 ∅ ∅;
  add_conf_item := spec_add_conf_item;
  add_physical_item := spec_add_physical_item;
  hv_id := lt_hv_id;
  set_hv_id n topo :=
    Topology (lt_old_top topo) n (lt_nid topo) (lt_devices topo) (lt_conf topo);
  devices := lt_devices;
  conf := lt_conf
|}.

(** ** generate_nodes *)

(** A [Node] instance of [gns3converter/node.py] as far as the converter
    touches its attributes: [node], [device_info], [links] and [config];
    whatever else the instance holds is [no_private]. *)
Record node_obj (C X : Type) := NodeObj {
  no_node : node;
  no_device_info : gmap string string;
  no_links : list candidate;
  no_config : list C;
  no_private : X
}.
Arguments NodeObj {C X} _ _ _ _ _.
Arguments no_node {C X} _.
Arguments no_device_info {C X} _.
Arguments no_links {C X} _.
Arguments no_config {C X} _.
Arguments no_private {C X} _.

(** The class [Node], which is not among the sources: its constructor and
    the methods [generate_nodes] calls, as functions on the instance (they
    return). *)
Class NodeClass := {
  hypervisor : Type;
  config_item : Type;
  node_private : Type;
  Node_init : hypervisor → Z → node_obj config_item node_private;
  set_description : node_obj config_item node_private → node_obj config_item node_private;
  set_type : node_obj config_item node_private → node_obj config_item node_private;
  add_device_items :
    string → device_record → node_obj config_item node_private →
    node_obj config_item node_private;
  add_info_from_hv : node_obj config_item node_private → node_obj config_item node_private;
  calc_mb_ports : node_obj config_item node_private → node_obj config_item node_private;
  add_slot_ports :
    string → node_obj config_item node_private → node_obj config_item node_private;
  add_wic_ports :
    string → node_obj config_item node_private → node_obj config_item node_private;
  calc_router_links : node_obj config_item node_private → node_obj config_item node_private;
  calc_cloud_connection :
    node_obj config_item node_private → node_obj config_item node_private;
  get_nb_added_ports : Z → node_obj config_item node_private → Z
}.

Abbreviation Node_t := (node_obj config_item node_private).

(** The converter instance: [self.port_id], [self.links], [self.configs]. *)
Record converter {C : Type} := Converter {
  self_port_id : Z;
  self_links : list candidate;
  self_configs : list C
}.
Arguments converter : clear implicits.
Arguments Converter {C} _ _ _.

(** [d[k]] for one of the named keys of a device record. *)
Definition required {A} (k : string) (v : option A) : result A :=
  match v with
  | Some a => Ok a
  | None => Raise (KeyError k)
  end.

(** [xs[i]] on a list. *)
Definition list_getitem {A} (xs : list A) (i : nat) : result A :=
  match xs !! i with
  | Some a => Ok a
  | None => Raise IndexError
  end.

(** The keys of a device record, [sorted(devices[device])]. *)
Definition key_if {A} (k : string) (v : option A) : list string :=
  match v with
  | Some _ => [k]
  | None => []
  end.

Definition record_keys (r : device_record) : list string :=
  sorted
    (key_if "hv_id" (dr_hv_id r) ++ key_if "node_id" (dr_node_id r) ++
     key_if "x" (dr_x r) ++ key_if "y" (dr_y r) ++
     key_if "type" (dr_type r) ++ key_if "model" (dr_model r) ++
     elements (dom (other_items (dr_items r)))).

Definition update_node {C X} (f : node → node) (o : node_obj C X) : node_obj C X :=
  NodeObj (f (no_node o)) (no_device_info o) (no_links o) (no_config o)
          (no_private o).

Definition set_info {C X} (k v : string) (o : node_obj C X) : node_obj C X :=
  NodeObj (no_node o) (<[k := v]> (no_device_info o)) (no_links o)
          (no_config o) (no_private o).

Definition set_name_label (device : string) (n : node) : node :=
  Node (node_id n) (node_type n) device device (node_x n) (node_y n)
       (node_router_id n) (node_properties n) (node_ports n).

Definition set_id_x_y (i : Z) (x y : string) (n : node) : node :=
  Node i (node_type n) (node_name n) (node_label n) x y
       (node_router_id n) (node_properties n) (node_ports n).

Definition set_router_id (i : Z) (n : node) : node :=
  Node (node_id n) (node_type n) (node_name n) (node_label n) (node_x n)
       (node_y n) (Some i) (node_properties n) (node_ports n).

Definition set_property (k v : string) (n : node) : node :=
  Node (node_id n) (node_type n) (node_name n) (node_label n) (node_x n)
       (node_y n) (node_router_id n) (<[k := v]> (node_properties n))
       (node_ports n).

(** The dictionary [node['properties']], with its key [name]. *)
Definition properties (n : node) : gmap string string :=
  <["name" := node_name n]> (node_properties n).

(** From [hv_id = ...] to the [if 'model' in devices[device]] statement:
    the instance is created and the named keys of the record are copied. *)
Definition start_node `{NodeClass} (hypervisors : list hypervisor)
    (port_id0 : Z) (device : string) (r : device_record) : result Node_t :=
  hv ← required "hv_id" (dr_hv_id r);
  h ← list_getitem hypervisors hv;
  let tmp_node := Node_init h port_id0 in
  let tmp_node := update_node (set_name_label device) tmp_node in
  i ← required "node_id" (dr_node_id r);
  x ← required "x" (dr_x r);
  y ← required "y" (dr_y r);
  let tmp_node := update_node (set_id_x_y i x y) tmp_node in
  t ← required "type" (dr_type r);
  let tmp_node := set_info "type" t tmp_node in
  Ok (match dr_model r with
      | Some m => set_info "model" m tmp_node
      | None => set_info "model" "" tmp_node
      end).

(** [for item in sorted(tmp_node.node['properties'])] *)
Definition add_ports `{NodeClass} (tmp_node : Node_t) : Node_t :=
  foldl (λ o item,
           if startswith "slot" item then add_slot_ports item o
           else if startswith "wic" item then add_wic_ports item o
           else o)
        tmp_node (sorted_keys (properties (no_node tmp_node))).

(** The branch [if tmp_node.device_info['type'] == 'Router']. *)
Definition build_router `{NodeClass} (r : device_record) (tmp_node : Node_t)
    : result Node_t :=
  let tmp_node := add_info_from_hv tmp_node in
  i ← required "node_id" (dr_node_id r);
  let tmp_node := update_node (set_router_id i) tmp_node in
  let tmp_node := calc_mb_ports tmp_node in
  let tmp_node := add_ports tmp_node in
  model ← getitem (no_device_info tmp_node) "model";
  tmp_node ←
    (if decide (model = "c7200") then Ok (add_slot_ports "slot0" tmp_node)
     else
       model ← getitem (no_device_info tmp_node) "model";
       if decide (model = "c3600") then
         chassis ← getitem (no_device_info tmp_node) "chassis";
         if decide (chassis = "3660") then
           Ok (update_node (set_property "slot0" "Leopard-2FE") tmp_node)
         else Ok tmp_node
       else Ok tmp_node);
  Ok (calc_router_links tmp_node).

(** From [tmp_node.set_description()] to [nodes.append(tmp_node.node)]:
    what the instance becomes and what is taken back from it. *)
Definition finish_node `{NodeClass} (r : device_record)
    (self : converter config_item) (tmp_node : Node_t)
    : result (node * converter config_item) :=
  let tmp_node := set_description tmp_node in
  let tmp_node := set_type tmp_node in
  let tmp_node :=
    foldl (λ o item, add_device_items item r o) tmp_node (record_keys r) in
  t ← getitem (no_device_info tmp_node) "type";
  tmp_node ←
    (if decide (t = "Router") then build_router r tmp_node
     else
       t ← getitem (no_device_info tmp_node) "type";
       if decide (t = "Cloud") then Ok (calc_cloud_connection tmp_node)
       else Ok tmp_node);
  Ok (no_node tmp_node,
      Converter (self_port_id self
                 + get_nb_added_ports (self_port_id self) tmp_node)
                (self_links self ++ no_links tmp_node)
                (self_configs self ++ no_config tmp_node)).

(** The body of [for device in sorted(devices)]. *)
Definition generate_node `{NodeClass} (hypervisors : list hypervisor)
    (device : string) (r : device_record) (self : converter config_item)
    : result (node * converter config_item) :=
  tmp_node ← start_node hypervisors (self_port_id self) device r;
  finish_node r self tmp_node.

Fixpoint generate_nodes_loop `{NodeClass}
    (devices0 : gmap string device_record) (hypervisors : list hypervisor)
    (names : list string) (nodes : list node) (self : converter config_item)
    : result (list node * converter config_item) :=
  match names with
  | [] => Ok (nodes, self)
  | device :: rest =>
      r ← getitem devices0 device;
      '(n, self') ← generate_node hypervisors device r self;
      generate_nodes_loop devices0 hypervisors rest (nodes ++ [n]) self'
  end.

Definition generate_nodes `{NodeClass} (devices0 : gmap string device_record)
    (hypervisors : list hypervisor) (self : converter config_item)
    : result (list node * converter config_item) :=
  generate_nodes_loop devices0 hypervisors (sorted_keys devices0) [] self.


(** ** The node class of the specification *)

(** The static hardware tables, which are external data: for an adapter
    the number of its ports and their letter code, for a model the number
    of its fixed ports and their letter code, and the adapter a router
    carries in a slot that is expanded without being configured. *)
Class Hardware := {
  adapter_ports : gmap string (nat * ascii);
  motherboard_ports : gmap string (nat * ascii);
  implicit_adapter : string
}.

(** Modelled from the spec: what a [Node] of [gns3converter/node.py], which
    is not among the sources, holds besides [node], [device_info], [links]
    and [config]: the defaults of its host instance, the cursor for the
    next port id and the network-I/O entries of its device. *)
Record node_state := NodeState {
  ns_hv : gmap string string;
  ns_port_id : Z;
  ns_interfaces : list (string * string)
}.

Definition update_state {C} (f : node_state → node_state)
    (o : node_obj C node_state) : node_obj C node_state :=
  NodeObj (no_node o) (no_device_info o) (no_links o) (no_config o)
          (f (no_private o)).

Definition add_links {C X} (cs : list candidate) (o : node_obj C X)
    : node_obj C X :=
  NodeObj (no_node o) (no_device_info o) (no_links o ++ cs) (no_config o)
          (no_private o).

(** [s] without its first [n] characters, and [s] up to its first space
    and after it. *)
Fixpoint skip (n : nat) (s : string) : string :=
  match n, s with
  | S n', String _ s' => skip n' s'
  | _, _ => s
  end.

Fixpoint split_space (s : string) : string * string :=
  match s with
  | EmptyString => ("", "")
  | String c s' =>
      if decide (c = " "%char) then ("", s')
      else (String c (split_space s').1, (split_space s').2)
  end.

(** Modelled from the spec: the constructor [Node(hypervisor, port_id)]:
    an empty node, no links, no configuration, the cursor at [port_id]. *)
Definition spec_Node_init (h : gmap string string) (port_id0 : Z)
    : node_obj string node_state :=
  NodeObj (Node 0 "" "" "" "" "" None ∅ []) {[ "chassis" := "" ]} [] []
          (NodeState h port_id0 []).

(** Modelled from the spec: [Node.set_type], the role the record
    declares. *)
Definition spec_set_type (o : node_obj string node_state)
    : node_obj string node_state :=
  update_node
    (λ n, Node (node_id n) (default "" (no_device_info o !! "type"))
               (node_name n) (node_label n) (node_x n) (node_y n)
               (node_router_id n) (node_properties n) (node_ports n)) o.

(** Modelled from the spec: [Node.add_device_items]: a network-I/O entry
    is kept for the candidate links, any other remaining attribute is
    copied into the properties verbatim. *)
Definition spec_add_device_items `{Adapters} (item : string)
    (r : device_record) (o : node_obj string node_state)
    : node_obj string node_state :=
  match other_items (dr_items r) !! item with
  | None => o
  | Some v =>
      if INTERFACE_RE_search item then
        update_state
          (λ st, NodeState (ns_hv st) (ns_port_id st)
                           (ns_interfaces st ++ [(item, v)])) o
      else update_node (set_property item v) o
  end.

(** Modelled from the spec: [Node.add_info_from_hv], which merges the
    defaults of the host instance into the node. *)
Definition spec_add_info_from_hv (o : node_obj string node_state)
    : node_obj string node_state :=
  update_node
    (λ n, Node (node_id n) (node_type n) (node_name n) (node_label n)
               (node_x n) (node_y n) (node_router_id n)
               (node_properties n ∪ ns_hv (no_private o)) (node_ports n)) o.

(** One more port under the next port id, which is used up. *)
Definition add_port (name : string) (o : node_obj string node_state)
    : node_obj string node_state :=
  let pid := ns_port_id (no_private o) in
  update_state (λ st, NodeState (ns_hv st) (pid + 1) (ns_interfaces st))
    (update_node
       (λ n, set_ports n (node_ports n ++ [Port pid name None None])) o).

(** The ports [0 .. count-1] of a slot, named by the adapter type, the
    slot and the port number, as in [FastEthernet0/1]. *)
Definition new_ports `{Adapters} (slot : string) (hw : nat * ascii)
    (o : node_obj string node_state) : node_obj string node_state :=
  match PORT_TYPES !! hw.2 with
  | Some full =>
      foldl (λ o (i : nat), add_port (full +:+ slot +:+ "/" +:+ pretty i) o)
            o (seq 0 hw.1)
  | None => o
  end.

(** Modelled from the spec: [Node.calc_mb_ports], the fixed ports of the
    model. *)
Definition spec_calc_mb_ports `{Adapters} `{Hardware}
    (o : node_obj string node_state) : node_obj string node_state :=
  match no_device_info o !! "model" ≫= (motherboard_ports !!.) with
  | Some hw => new_ports "0" hw o
  | None => o
  end.

(** Modelled from the spec: [Node.add_slot_ports] and [Node.add_wic_ports]:
    the ports of the adapter in the slot that the property [item] names
    after a prefix of [n] characters. *)
Definition spec_add_slot_ports `{Adapters} `{Hardware} (n : nat) (item : string)
    (o : node_obj string node_state) : node_obj string node_state :=
  let adapter :=
    default implicit_adapter (node_properties (no_node o) !! item) in
  match adapter_ports !! adapter with
  | Some hw => new_ports (skip n item) hw o
  | None => o
  end.

(** The candidate link of a network-I/O entry [interface = remote]: it
    leaves the port of the node that the interface names and goes to the
    remote endpoint. *)
Definition candidate_from `{Adapters} (n : node) (interface : string)
    (dest_dev dest_port : string) : option candidate :=
  match expand_port interface with
  | Ok name =>
      pid ← port_id_by_name name (node_ports n);
      Some (Candidate (node_name n) name (node_id n) pid dest_dev dest_port)
  | Raise _ => None
  end.

(** Modelled from the spec: [Node.calc_router_links], one candidate link
    per network-I/O entry; the entry reads [device port]. *)
Definition spec_calc_router_links `{Adapters} (o : node_obj string node_state)
    : node_obj string node_state :=
  add_links
    (omap (λ e : string * string,
             candidate_from (no_node o) e.1 (split_space e.2).1 (split_space e.2).2)
          (ns_interfaces (no_private o))) o.

(** Modelled from the spec: [Node.calc_cloud_connection], the candidate
    link of the single network-I/O entry of a cloud, with the sentinel
    [NIO] for the remote device. *)
Definition spec_calc_cloud_connection `{Adapters}
    (o : node_obj string node_state) : node_obj string node_state :=
  add_links
    (omap (λ e : string * string, candidate_from (no_node o) e.1 "NIO" e.2)
          (take 1 (ns_interfaces (no_private o)))) o.

(** Modelled from the spec: the class [Node]. *)
Definition spec_node_class `{Adapters} `{Hardware} : NodeClass := {|
  hypervisor := gmap string string;
  config_item := string;
  node_private := node_state;
  Node_init := spec_Node_init;
  set_description o := o;
  set_type := spec_set_type;
  add_device_items := spec_add_device_items;
  add_info_from_hv := spec_add_info_from_hv;
  calc_mb_ports := spec_calc_mb_ports;
  add_slot_ports := spec_add_slot_ports 4;
  add_wic_ports := spec_add_slot_ports 3;
  calc_router_links := spec_calc_router_links;
  calc_cloud_connection := spec_calc_cloud_connection;
  get_nb_added_ports port_id0 o := ns_port_id (no_private o) - port_id0
|}.

(** ** The converter as a whole *)

(** [Converter.__init__]: the port id cursor at 1, no links, no configs. *)
Definition Converter_init {C} : converter C := Converter 1 [] [].

(** Modelled from the spec: the caller of the converter, which is not
    among the sources: the stages in the order in which they feed each
    other, that is the instances of the raw topology, the grouper on the
    topology of the specification, the node builder and the link
    resolver.  It returns the nodes as the node builder leaves them, the
    links, and the nodes as the link resolver leaves them. *)
Definition pipeline `{IpAddress} `{Models} `{DeviceNames} `{NodeClass} `{Adapters}
    (old_top : gmap string (gmap string item_value))
    (hypervisors : list hypervisor)
    : result (list node * list link * list node) :=
  sections ← get_instances old_top;
  '(devs, _) ← @process_topology _ spec_topology sections old_top;
  '(nodes, self) ← generate_nodes devs hypervisors Converter_init;
  '(links, nodes') ← generate_links (self_links self) nodes;
  Ok (nodes, links, nodes').
(** * Specification predicates and scenarios *)

(** A key names a host instance when it reads [addr:rest], [addr] has no
    colon and [ip_address] accepts [addr]. *)
Definition is_instance_key `{IpAddress} (item : string) : Prop :=
  ∃ addr rest, item = addr +:+ ":" +:+ rest ∧ contains ":" addr = false ∧
               is_Some (ip_address addr).


(** Two nodes of type Cloud; only the second one has the port
    [nio_gen_eth:eth1]. *)
Definition two_clouds : list node :=
  [Node 1 "Cloud" "C1" "C1" "0" "0" None ∅ [Port 1 "nio_gen_eth:eth0" None None];
   Node 2 "Cloud" "C2" "C2" "0" "0" None ∅ [Port 2 "nio_gen_eth:eth1" None None]].

(** What [add_node_connections] may do to a port [p] of node [n]: the keys
    [id] and [name] stay, and the port is changed at all only if it is the
    source port on the source node or the destination port on a
    destination node that is not the source node. *)
Definition port_frame (lk : link) (n : node) (p p' : port) : Prop :=
  port_id p' = port_id p ∧ port_name p' = port_name p ∧
  (p' ≠ p →
     (node_id n = source_node_id lk ∧ port_id p = source_port_id lk) ∨
     (node_id n ≠ source_node_id lk ∧
      Some (node_id n) = destination_node_id lk ∧
      Some (port_id p) = destination_port_id lk)).

(** What it may do to a node: nothing but to its ports. *)
Definition node_frame (lk : link) (n n' : node) : Prop :=
  node_id n' = node_id n ∧ node_type n' = node_type n ∧
  node_name n' = node_name n ∧ node_label n' = node_label n ∧
  node_x n' = node_x n ∧ node_y n' = node_y n ∧
  node_router_id n' = node_router_id n ∧
  node_properties n' = node_properties n ∧
  Forall2 (port_frame lk n) (node_ports n) (node_ports n').

(** On a link from a node to itself every port other than the source port
    is left as it was. *)
Definition self_link_frame (lk : link) (n n' : node) : Prop :=
  Forall2 (λ p p', port_id p ≠ source_port_id lk → p' = p)
          (node_ports n) (node_ports n').

(** A router with one unconnected port, and the self link used to
    exercise [add_node_connections]. *)
Definition one_router : list node :=
  [Node 1 "Router" "R1" "R1" "0" "0" (Some 1) ∅
     [Port 1 "FastEthernet0/0" None None; Port 2 "FastEthernet0/1" None None]].

Definition self_link : link := Link "loop" (Some 1) (Some 2) 1 1 (Some 1).

(** Two links are the same undirected edge when the source endpoint of
    each is the destination endpoint of the other. *)
Definition same_edge (a b : link) : Prop :=
  Some (source_node_id a) = destination_node_id b ∧
  Some (source_port_id a) = destination_port_id b ∧
  Some (source_node_id b) = destination_node_id a ∧
  Some (source_port_id b) = destination_port_id a.

Definition no_duplicate_edges (links : list link) : Prop :=
  ∀ i j a b, i ≠ j → links !! i = Some a → links !! j = Some b → ¬ same_edge a b.

(** The links carry the ids 1, 2, 3, ... in list order. *)
Definition sequential_ids (links : list link) : Prop :=
  ∀ i lk, links !! i = Some lk → link_id lk = Some (Z.of_nat i + 1).

(** Modelled from the spec: the static tables of [adapters.py] and
    [interfaces.py], which are not among the sources, as far as the
    scenarios use them: a short letter code followed by a digit is a
    shorthand, [f] stands for FastEthernet and [e] for Ethernet. *)
Definition scenario_adapters : Adapters := {|
  INTERFACE_RE_search s :=
    match s with
    | String c (String d _) =>
        bool_decide (upper c = "F"%char ∨ upper c = "E"%char)
        && bool_decide (is_Some (Ascii.is_nat d))
    | _ => false
    end;
  PORT_TYPES := {[ "F"%char := "FastEthernet"; "E"%char := "Ethernet" ]}
|}.

Definition router (i : Z) (name : string) (ports : list port) : node :=
  Node i "Router" name name "0" "0" (Some i) ∅ ports.

(** Modelled from the spec: the hardware tables, which are not among the
    sources, as far as scenario A uses them: the adapter [NM-1FE-TX] has
    one FastEthernet port. *)
Definition scenario_hardware : Hardware := {|
  adapter_ports := {[ "NM-1FE-TX" := (1%nat, "F"%char);
                      "C7200-IO-FE" := (1%nat, "F"%char) ]};
  motherboard_ports := ∅;
  implicit_adapter := "C7200-IO-FE"
|}.

(** Scenario A as a raw topology: one host instance with the routers R1
    and R2, each with the adapter [NM-1FE-TX] in slot 0, and with the
    network-I/O entry [f0/0] of each pointing at [f0/0] of the other. *)
Definition scenario_A_router (x peer : string) : item_value :=
  Section_ {[ "x" := x; "y" := "0"; "slot0" := "NM-1FE-TX";
              "f0/0" := peer +:+ " f0/0" ]}.

Definition scenario_A_topology : gmap string (gmap string item_value) :=
  {[ "127.0.0.1:7200" :=
       {[ "workingdir" := Scalar "/tmp";
          "ROUTER R1" := scenario_A_router "-100" "R2";
          "ROUTER R2" := scenario_A_router "100" "R1" ]} ]}.

(** Three routers: R1 names port f0/0 of R2 as its peer, while that port
    is linked to R3 and back. *)
Definition three_routers : list node :=
  [router 1 "R1" [Port 1 "FastEthernet0/0" None None];
   router 2 "R2" [Port 2 "FastEthernet0/0" None None];
   router 3 "R3" [Port 3 "FastEthernet0/0" None None]].

Definition three_router_links : list candidate :=
  [Candidate "R1" "f0/0" 1 1 "R2" "f0/0";
   Candidate "R2" "f0/0" 2 2 "R3" "f0/0";
   Candidate "R3" "f0/0" 3 3 "R2" "f0/0"].

(** Every character of [s] satisfies [P]. *)
Fixpoint all_chars (P : ascii → bool) (s : string) : bool :=
  match s with
  | EmptyString => true
  | String c s' => P c && all_chars P s'
  end.

(** The characters [str] never prints for an integer. *)
Definition not_in_number (c : ascii) : bool :=
  bool_decide (c ≠ ":"%char ∧ c ≠ "N"%char).



(** A router whose only candidate link names a device that does not
    exist. *)
Definition dangling_nodes : list node :=
  [router 1 "R1" [Port 1 "FastEthernet0/0" None None]].

Definition dangling_link : candidate :=
  Candidate "R1" "f0/0" 1 1 "R9" "f0/0".


(** Modelled from the spec: the static config-role table of [models.py],
    which is not among the sources, as far as the examples use it: the
    section names [7200] and [3640] are configuration items. *)
Definition scenario_models : Models := {|
  MODEL_TRANSFORM := {[ "7200" := "c7200"; "3640" := "c3600" ]}
|}.

(** The item names of the examples read [KEYWORD name]; [ROUTER] stands
    for the role Router and [CLOUD] for Cloud. *)
Definition scenario_names : DeviceNames := {|
  device_typename item :=
    ((split_space item).2,
     if decide ((split_space item).1 = "ROUTER") then "Router"
     else if decide ((split_space item).1 = "CLOUD") then "Cloud"
     else (split_space item).1)
|}.

(** What the grouper does with a sub-section, in the words of the
    specification: it routes the item into the configuration snippets or
    merges it into the device records, under the position [pos] of its
    instance in the sorted instance list. *)
Inductive grouping_step :=
  | RouteConf (pos : nat) (instance item : string)
  | MergePhysical (pos : nat) (instance item : string).

Definition classify `{Models} (pos : nat) (instance : string)
    (section : gmap string item_value) (item : string) : option grouping_step :=
  match section !! item with
  | Some (Section_ _) =>
      Some (if decide (item ∈ dom MODEL_TRANSFORM) then RouteConf pos instance item
            else MergePhysical pos instance item)
  | _ => None
  end.

(** Instances in sorted order, numbered by position; within an instance
    the items in sorted order. *)
Definition grouping_steps `{Models} (sections : list string)
    (old_top : gmap string (gmap string item_value)) : list grouping_step :=
  mjoin (imap (λ pos instance,
                 let section := default ∅ (old_top !! instance) in
                 omap (classify pos instance section) (sorted_keys section))
              (sorted sections)).

(** A topology object that does nothing but record the calls made on it,
    each with the value of [hv_id] at the time of the call; it hands out
    the record as [devices] and the counter as [conf]. *)
Record call_log := CallLog {
  cl_hv_id : nat;
  cl_calls : list grouping_step
}.

Definition recording : TopologyClass := {|
  topology := call_log;
  devices_t := list grouping_step;
  conf_t := nat;
  LegacyTopology _ _ := CallLog 0 [];
  add_conf_item instance item t :=
    CallLog (cl_hv_id t) (cl_calls t ++ [RouteConf (cl_hv_id t) instance item]);
  add_physical_item instance item t :=
    CallLog (cl_hv_id t) (cl_calls t ++ [MergePhysical (cl_hv_id t) instance item]);
  hv_id := cl_hv_id;
  set_hv_id n t := CallLog n (cl_calls t);
  devices := cl_calls;
  conf := cl_hv_id
|}.

(** The grouper's outputs in the words of the specification: the device
    records by device name, the configuration snippets and the next node
    id. *)
Record grouped := Grouped {
  g_devices : gmap string device_record;
  g_conf : gmap string (gmap string string);
  g_next : Z
}.

(** The record of a device after the attributes of one more physical item
    are merged into it. *)
Definition merged `{DeviceNames} (pos : nat) (next : Z) (item : string)
    (attrs : gmap string string) (old : option device_record) : device_record :=
  {| dr_hv_id := Some pos;
     dr_node_id := Some next;
     dr_x := attrs !! "x" ∪ (old ≫= dr_x);
     dr_y := attrs !! "y" ∪ (old ≫= dr_y);
     dr_type := Some (device_typename item).2;
     dr_model := attrs !! "model" ∪ (old ≫= dr_model);
     dr_items := other_items attrs ∪ from_option dr_items ∅ old |}.

Definition apply_step `{DeviceNames}
    (old_top : gmap string (gmap string item_value)) (g : grouped)
    (st : grouping_step) : grouped :=
  match st with
  | RouteConf _ instance item =>
      Grouped (g_devices g)
              (<[item := attributes old_top instance item]> (g_conf g))
              (g_next g)
  | MergePhysical pos instance item =>
      Grouped (partial_alter
                 (λ old, Some (merged pos (g_next g) item
                                 (attributes old_top instance item) old))
                 (device_typename item).1 (g_devices g))
              (g_conf g) (g_next g + 1)
  end.

Definition run_steps `{DeviceNames}
    (old_top : gmap string (gmap string item_value))
    (steps : list grouping_step)
    : gmap string device_record * gmap string (gmap string string) :=
  let g := foldl (apply_step old_top) (Grouped ∅ ∅ 1) steps in
  (g_devices g, g_conf g).

(** What the topology of the specification holds besides its counter. *)
Definition grouped_of (t : legacy_topology) : grouped :=
  Grouped (lt_devices t) (lt_conf t) (lt_nid t).

(** [item] is a sub-section of [section] and is in the config-role table
    ([conf_side = true]) or is not ([conf_side = false]). *)
Definition section_item `{Models} (conf_side : bool)
    (section : gmap string item_value) (item : string) : Prop :=
  ∃ attrs, section !! item = Some (Section_ attrs) ∧
           bool_decide (item ∈ dom MODEL_TRANSFORM) = conf_side.

(** [item] is a configuration item of [instance]: a sub-section whose name
    is in the config-role table. *)
Definition conf_item `{Models} (old_top : gmap string (gmap string item_value))
    (instance item : string) : Prop :=
  ∃ section, old_top !! instance = Some section ∧ section_item true section item.

(** [item] is a physical item of [instance]: a sub-section whose name is
    not in the config-role table. *)
Definition physical_item `{Models} (old_top : gmap string (gmap string item_value))
    (instance item : string) : Prop :=
  ∃ section, old_top !! instance = Some section ∧ section_item false section item.

(** [instance] holds a physical item of the device [x]. *)
Definition device_item `{Models} `{DeviceNames}
    (old_top : gmap string (gmap string item_value))
    (instance x : string) : Prop :=
  ∃ item, physical_item old_top instance item ∧ (device_typename item).1 = x.

(** The calls recorded for [item] of [instance]. *)
Definition routed (calls : list grouping_step) (instance item : string) : Prop :=
  ∃ pos, RouteConf pos instance item ∈ calls.

Definition merged_in (calls : list grouping_step) (instance item : string) : Prop :=
  ∃ pos, MergePhysical pos instance item ∈ calls.

(** Every item of every instance is routed or merged, unless
    [process_topology] raises. *)
Definition every_item_classified `{Models} (sections : list string)
    (old_top : gmap string (gmap string item_value)) : Prop :=
  match @process_topology _ recording sections old_top with
  | Ok (calls, _) =>
      ∀ instance section item,
        instance ∈ sections → old_top !! instance = Some section →
        is_Some (section !! item) →
        routed calls instance item ∨ merged_in calls instance item
  | Raise _ => True
  end.

(** The raw mapping without the scalar options of its instances. *)
Definition is_section (v : item_value) : Prop :=
  match v with
  | Section_ _ => True
  | Scalar _ => False
  end.

Global Instance is_section_dec v : Decision (is_section v).
Proof. destruct v; simpl; apply _. Defined.

Definition drop_scalars (section : gmap string item_value)
    : gmap string item_value :=
  filter (λ kv, is_section kv.2) section.

(** One host instance with a scalar option, a configuration section and a
    router. *)
Definition one_section : gmap string item_value :=
  {[ "workingdir" := Scalar "/tmp";
     "7200" := Section_ {[ "image" := "c7200.image" ]};
     "ROUTER R1" := Section_ {[ "model" := "7200" ]} ]}.

Definition one_instance : gmap string (gmap string item_value) :=
  {[ "127.0.0.1:7200" := one_section ]}.

(** Two instances; the router R2 sits in the second one. *)
Definition first_section : gmap string item_value :=
  {[ "ROUTER R1" := Section_ {[ "model" := "7200" ]} ]}.

Definition second_section : gmap string item_value :=
  {[ "7200" := Section_ {[ "image" := "c7200.image" ]};
     "ROUTER R2" := Section_ {[ "model" := "7200" ]} ]}.

Definition two_instances : gmap string (gmap string item_value) :=
  {[ "10.0.0.1:7200" := first_section; "10.0.0.2:7200" := second_section ]}.

(** The key [k] is in [device_info]. *)
Definition has_info {C X} (o : node_obj C X) (k : string) : Prop :=
  is_Some (no_device_info o !! k).

(** The keys of [device_info] that [generate_nodes] reads. *)
Definition info_ok {C X} (o : node_obj C X) : Prop :=
  has_info o "type" ∧ has_info o "model" ∧ has_info o "chassis".

(** A method of [Node] that deletes no key of [device_info]. *)
Definition keeps_info `{NodeClass} (f : Node_t → Node_t) : Prop :=
  ∀ o k, has_info o k → has_info (f o) k.

(** What [generate_nodes] relies on when it reads [device_info]: the
    constructor provides the key [chassis] and the methods called before
    the reads delete nothing. *)
Record well_behaved `{NodeClass} : Prop := WellBehaved {
  init_chassis : ∀ h p, has_info (Node_init h p) "chassis";
  keeps_set_description : keeps_info set_description;
  keeps_set_type : keeps_info set_type;
  keeps_add_device_items : ∀ item r, keeps_info (add_device_items item r);
  keeps_add_info_from_hv : keeps_info add_info_from_hv;
  keeps_calc_mb_ports : keeps_info calc_mb_ports;
  keeps_add_slot_ports : ∀ item, keeps_info (add_slot_ports item);
  keeps_add_wic_ports : ∀ item, keeps_info (add_wic_ports item)
}.

(** A device record with the keys [generate_nodes] reads unguarded, its
    [hv_id] an index of [hypervisors]. *)
Definition complete_record {H : Type} (hypervisors : list H)
    (r : device_record) : Prop :=
  (∃ hv, dr_hv_id r = Some hv ∧ (hv < length hypervisors)%nat) ∧
  is_Some (dr_node_id r) ∧ is_Some (dr_x r) ∧ is_Some (dr_y r) ∧
  is_Some (dr_type r).

(** The instance on which the methods of [Node] are called: the object of
    the constructor with the name, label, id and position of the record,
    and with [type] and [model] put into its [device_info]. *)
Definition started `{NodeClass} (h : hypervisor) (port_id0 : Z)
    (device : string) (i : Z) (x y t m : string) : Node_t :=
  let o := Node_init h port_id0 in
  NodeObj (Node i (node_type (no_node o)) device device x y
                (node_router_id (no_node o)) (node_properties (no_node o))
                (node_ports (no_node o)))
          (<["model" := m]> (<["type" := t]> (no_device_info o)))
          (no_links o) (no_config o) (no_private o).

(** A [Node] class that adds no ports and no links, to run
    [generate_nodes] on concrete records: the constructor gives an empty
    node and a [device_info] with the key [chassis]; [set_type] copies the
    type into the node. *)
Definition plain_node_class : NodeClass := {|
  hypervisor := string;
  config_item := string;
  node_private := unit;
  Node_init _ _ :=
    NodeObj (Node 0 "" "" "" "0" "0" None ∅ []) {[ "chassis" := "" ]} [] [] ();
  set_description o := o;
  set_type o :=
    update_node
      (λ n, Node (node_id n) (default "" (no_device_info o !! "type"))
                 (node_name n) (node_label n) (node_x n) (node_y n)
                 (node_router_id n) (node_properties n) (node_ports n)) o;
  add_device_items _ _ o := o;
  add_info_from_hv o := o;
  calc_mb_ports o := o;
  add_slot_ports _ o := o;
  add_wic_ports _ o := o;
  calc_router_links o := o;
  calc_cloud_connection o := o;
  get_nb_added_ports _ _ := 0
|}.

(** A router record without the key [model], and the same record without
    the key [type] as well. *)
Definition record_no_model : device_record :=
  DeviceRecord (Some 0%nat) (Some 1) (Some "10") (Some "20") (Some "Router") None ∅.

Definition record_no_type : device_record :=
  DeviceRecord (Some 0%nat) (Some 1) (Some "10") (Some "20") None None ∅.

(** [generate_nodes] completes. *)
Definition completes `{NodeClass} (devices0 : gmap string device_record)
    (hypervisors : list hypervisor) (self : converter config_item) : Prop :=
  ∃ nodes self', generate_nodes devices0 hypervisors self = Ok (nodes, self').

(** Node ids, and the port ids within every node, are unique. *)
Definition unique_node_ids (nodes : list node) : Prop :=
  NoDup (node_id <$> nodes).

Definition unique_port_ids (n : node) : Prop :=
  NoDup (port_id <$> node_ports n).

(** Two ports, two nodes of the same shape: [add_node_connections] changes
    nothing but [link_id] and [description] of ports. *)
Definition same_port_shape (p p' : port) : Prop :=
  port_id p' = port_id p ∧ port_name p' = port_name p.

Definition same_node_shape (n n' : node) : Prop :=
  node_id n' = node_id n ∧ node_type n' = node_type n ∧
  node_name n' = node_name n ∧ node_label n' = node_label n ∧
  node_x n' = node_x n ∧ node_y n' = node_y n ∧
  node_router_id n' = node_router_id n ∧
  node_properties n' = node_properties n ∧
  Forall2 same_port_shape (node_ports n) (node_ports n').

(** Position [j] holds the first port of [ports] whose id is [pid]. *)
Definition first_port_with (pid : option Z) (ports : list port) (j : nat) : Prop :=
  (∃ p, ports !! j = Some p ∧ Some (port_id p) = pid) ∧
  ∀ j' p', (j' < j)%nat → ports !! j' = Some p' → Some (port_id p') ≠ pid.

(** Some port of some node is an endpoint of the link, as the loop of
    [add_node_connections] selects them. *)
Definition endpoint_present (lk : link) (nodes : list node) : Prop :=
  ∃ n p, n ∈ nodes ∧ p ∈ node_ports n ∧
    ((node_id n = source_node_id lk ∧ port_id p = source_port_id lk) ∨
     (node_id n ≠ source_node_id lk ∧
      Some (node_id n) = destination_node_id lk ∧
      Some (port_id p) = destination_port_id lk)).

(** Two link dictionaries that agree on every key but [id]. *)
Definition same_but_id (a b : link) : Prop :=
  description b = description a ∧
  destination_node_id b = destination_node_id a ∧
  destination_port_id b = destination_port_id a ∧
  source_port_id b = source_port_id a ∧
  source_node_id b = source_node_id a.


(** What the numbering loop keeps true, with [N] dictionaries in the heap
    and the iterator at position [i]: the list refers to the heap in
    ascending order; every id given so far is at least 1 and below the
    next one; the dictionaries numbered so far lie before everything the
    iterator has still to visit; and ids grow with the position in the
    heap. *)
Record loop_inv (N i : nat) (s : loop_state) : Prop := LoopInv {
  inv_length : length (ls_heap s) = N;
  inv_links : ls_links s `sublist_of` seq 0 N;
  inv_next : (1 ≤ ls_link_id s)%Z;
  inv_bound : ∀ r lk q,
    ls_heap s !! r = Some lk → link_id lk = Some q → (1 ≤ q < ls_link_id s)%Z;
  inv_behind : ∀ r lk q r',
    ls_heap s !! r = Some lk → link_id lk = Some q →
    r' ∈ drop i (ls_links s) → (r < r')%nat;
  inv_order : ∀ r1 r2 lk1 lk2 q1 q2,
    (r1 < r2)%nat →
    ls_heap s !! r1 = Some lk1 → ls_heap s !! r2 = Some lk2 →
    link_id lk1 = Some q1 → link_id lk2 = Some q2 → (q1 < q2)%Z
}.

(** The resolved links with the first [i] of them numbered 1, 2, ... *)
Definition numbered_upto (i : nat) (resolved : list link) : list link :=
  imap (λ k lk, if decide (k < i)%nat then set_link_id lk (Z.of_nat k + 1) else lk)
       resolved.

(** No link ends where a link starts: no destination endpoint of
    [resolved] is a source endpoint of [resolved]. *)
Definition no_shared_endpoint (resolved : list link) : Prop :=
  ∀ a b, a ∈ resolved → b ∈ resolved →
         ¬ (destination_node_id b = Some (source_node_id a) ∧
            destination_port_id b = Some (source_port_id a)).

(** An address check to stand for [ipaddress.ip_address] of the Python
    library in the examples: non-empty strings of digits and dots are
    accepted. *)
Definition scenario_ip : IpAddress := {|
  ip := string;
  ip_address s :=
    match s with
    | EmptyString => None
    | String _ _ =>
        if all_chars (λ c, bool_decide (is_Some (Ascii.is_nat c) ∨ c = "."%char)) s
        then Some s else None
    end
|}.

(** Tables that disagree: every name counts as a shorthand, no letter has
    an adapter name. *)
Definition empty_table_adapters : Adapters := {|
  INTERFACE_RE_search _ := true;
  PORT_TYPES := ∅
|}.
(** * Properties *)

(** ** The [result] monad *)

Lemma bind_Ok {A B} (m : result A) (f : A → result B) (b : B) :
  m ≫= f = Ok b ↔ ∃ a, m = Ok a ∧ f a = Ok b.
Proof.
  destruct m as [a|e]; simpl; split.
  - eauto.
  - by intros (a' & [= ->] & ?).
  - done.
  - by intros (? & ? & ?).
Qed.

Lemma getitem_Ok {A} (d : gmap string A) k v : getitem d k = Ok v ↔ d !! k = Some v.
Proof. unfold getitem. destruct (d !! k); naive_solver. Qed.

(** ** [sorted] *)

Lemma sorted_perm xs : sorted xs ≡ₚ xs.
Proof. apply merge_sort_Permutation. Qed.

Lemma sorted_Sorted xs : Sorted String.le (sorted xs).
Proof. apply (Sorted_merge_sort String.le). Qed.

Lemma elem_of_sorted x xs : x ∈ sorted xs ↔ x ∈ xs.
Proof. by rewrite sorted_perm. Qed.

Lemma elem_of_sorted_1 x xs : x ∈ sorted xs → x ∈ xs.
Proof. by rewrite elem_of_sorted. Qed.

Lemma sorted_length xs : length (sorted xs) = length xs.
Proof. by rewrite sorted_perm. Qed.

Lemma elem_of_sorted_keys {A} (d : gmap string A) k :
  k ∈ sorted_keys d ↔ is_Some (d !! k).
Proof.
  unfold sorted_keys. by rewrite elem_of_sorted, elem_of_elements, elem_of_dom.
Qed.

Lemma NoDup_sorted_keys {A} (d : gmap string A) : NoDup (sorted_keys d).
Proof.
  unfold sorted_keys. rewrite sorted_perm. apply NoDup_elements.
Qed.

Lemma StronglySorted_sublist {A} (R : relation A) (l1 l2 : list A) :
  l1 `sublist_of` l2 → StronglySorted R l2 → StronglySorted R l1.
Proof.
  induction 1 as [|x l1 l2 Hsub IH|x l1 l2 Hsub IH]; intros Hs.
  - constructor.
  - apply StronglySorted_inv in Hs as [Hs Hall]. constructor; [by apply IH|].
    rewrite Forall_forall in Hall |- *. intros y Hy. apply Hall.
    by eapply elem_of_sublist.
  - apply StronglySorted_inv in Hs as [Hs _]. by apply IH.
Qed.

Lemma sorted_StronglySorted xs : StronglySorted String.le (sorted xs).
Proof. apply Sorted_StronglySorted; [apply _|apply sorted_Sorted]. Qed.

(** ** Strings: splitting at the first occurrence of a character *)

Lemma contains_split c s :
  contains c s = true →
  ∃ a rest, s = a +:+ String c rest ∧ contains c a = false.
Proof.
  induction s as [|c' s IH]; simpl; [done|].
  case_decide as Hc.
  - subst c'. intros _. by exists "", s.
  - intros (a & rest & -> & Ha)%IH. exists (String c' a), rest.
    simpl. by rewrite decide_False.
Qed.

Lemma contains_app_first c a rest :
  contains c (a +:+ String c rest) = true.
Proof. induction a as [|c' a IH]; simpl; case_decide; auto. Qed.

Lemma str_index_app_first c a rest :
  contains c a = false →
  str_index c (a +:+ String c rest) = Ok (String.length a) ∧
  slice_to (String.length a) (a +:+ String c rest) = a.
Proof.
  induction a as [|c' a IH]; simpl.
  - intros _. by rewrite decide_True.
  - case_decide; [done|]. intros [-> ->]%IH. done.
Qed.

(** ** get_instances *)

Lemma get_instances_loop_spec `{IpAddress} (items acc : list string) :
  ∃ out, get_instances_loop items acc = Ok (acc ++ out) ∧
         out `sublist_of` items ∧
         ∀ item, item ∈ out ↔ item ∈ items ∧ is_instance_key item.
Proof.
  revert acc. induction items as [|item rest IH]; intros acc; simpl.
  { exists []. rewrite app_nil_r. split; [done|]. split; [done|].
    intros item. rewrite !elem_of_nil. tauto. }
  destruct (contains ":" item) eqn:Hcolon.
  - destruct (contains_split _ _ Hcolon) as (a & tl & Hsplit & Hfree).
    destruct (str_index_app_first ":" a tl Hfree) as [Hidx Hsl].
    rewrite <-Hsplit in Hidx, Hsl. rewrite Hidx. simpl. rewrite Hsl.
    destruct (ip_address a) as [v|] eqn:Hip.
    + destruct (IH (acc ++ [item])) as (out & -> & Hsub & Hout).
      exists (item :: out). rewrite <-app_assoc. split; [done|].
      split; [by constructor|]. intros x. rewrite !elem_of_cons, Hout.
      split; [|tauto]. intros [->|[??]]; [|tauto]. split; [by left|].
      exists a, tl. by rewrite Hip.
    + destruct (IH acc) as (out & -> & Hsub & Hout).
      exists out. split; [done|]. split; [by constructor|].
      intros x. rewrite elem_of_cons, Hout. split; [tauto|].
      intros [[->|?] Hkey]; [|done]. exfalso.
      destruct Hkey as (addr & tl' & Heq & Hfree' & Hsome).
      destruct (str_index_app_first ":" addr tl' Hfree') as [Hidx' Hsl'].
      change (":" +:+ tl') with (String ":" tl') in Heq.
      rewrite <-Heq, Hidx in Hidx'. injection Hidx' as Hlen.
      rewrite <-Heq, <-Hlen, Hsl in Hsl'. subst addr.
      rewrite Hip in Hsome. by destruct Hsome.
  - destruct (IH acc) as (out & -> & Hsub & Hout).
    exists out. split; [done|]. split; [by constructor|].
    intros x. rewrite elem_of_cons, Hout. split; [tauto|].
    intros [[->|?] Hkey]; [|done]. exfalso.
    destruct Hkey as (addr & tl' & Heq & _ & _).
    rewrite Heq in Hcolon.
    change (":" +:+ tl') with (String ":" tl') in Hcolon.
    by rewrite contains_app_first in Hcolon.
Qed.

(** C9. [get_instances] never raises and returns, in ascending order and
    without repetition, exactly the keys of [config] that contain a colon
    and whose part before the first colon [ip_address] accepts. *)
Theorem get_instances_sorted_valid_keys `{IpAddress} {A} (config : gmap string A) :
  ∃ instances,
    get_instances config = Ok instances ∧
    StronglySorted String.le instances ∧
    NoDup instances ∧
    ∀ item, item ∈ instances ↔ is_Some (config !! item) ∧ is_instance_key item.
Proof.
  unfold get_instances.
  destruct (get_instances_loop_spec (sorted_keys config) []) as (out & -> & Hsub & Hout).
  exists out. split; [done|]. split; [|split].
  - eapply StronglySorted_sublist; [done|]. apply sorted_StronglySorted.
  - by eapply sublist_NoDup; [apply (NoDup_sorted_keys config)|].
  - intros item. by rewrite Hout, elem_of_sorted_keys.
Qed.

(** ** convert_destination_to_id *)

Lemma convert_cloud_first_only destination_port pre n post :
  Forall (λ m, node_type m ≠ "Cloud") pre →
  node_type n = "Cloud" →
  convert_destination_to_id "NIO" destination_port (pre ++ n :: post)
  = cloud_port destination_port n (node_ports n).
Proof.
  intros Hpre Hn. unfold convert_destination_to_id.
  rewrite decide_False by (intros Hne; by apply Hne).
  induction Hpre as [|m pre Hm _ IH]; simpl.
  - by rewrite decide_True.
  - by rewrite decide_False.
Qed.

(** C3. With two Cloud nodes of which only the second has the requested
    port, the [NIO] branch stops at the first Cloud node and returns null
    ids although a Cloud port of that name exists. *)
Theorem convert_destination_to_id_stops_at_first_cloud :
  (∃ n p, n ∈ two_clouds ∧ node_type n = "Cloud" ∧ p ∈ node_ports n ∧
          port_name p = "nio_gen_eth:eth1") ∧
  convert_destination_to_id "NIO" "nio_gen_eth:eth1" two_clouds
  = (Device None None, None).
Proof.
  split; [|reflexivity].
  eexists _, (Port 2 "nio_gen_eth:eth1" None None).
  split; [apply list_elem_of_lookup; by exists 1%nat|].
  split; [done|]. split; [by apply list_elem_of_singleton|done].
Qed.

(** ** add_node_connections *)

Lemma annotate_ports_total pid i desc ports :
  ∃ ports', annotate_ports pid (Some i) desc ports = Ok ports'.
Proof.
  induction ports as [|p ps [ps' IH]]; simpl; [by eexists|].
  case_decide; [by eexists|]. rewrite IH. by eexists.
Qed.

Lemma annotate_ports_frame pid lid desc ports ports' :
  annotate_ports pid lid desc ports = Ok ports' →
  Forall2 (λ p p', port_id p' = port_id p ∧ port_name p' = port_name p ∧
                   (p' ≠ p → Some (port_id p) = pid)) ports ports'.
Proof.
  revert ports'. induction ports as [|p ps IH]; simpl; intros ports'.
  - intros [= <-]. constructor.
  - case_decide as Hp.
    + destruct lid as [i|]; [|done]. intros [= <-]. constructor; [done|].
      apply Forall_Forall2_diag, Forall_forall. by intros q _.
    + intros (ps' & Hps & [= <-])%bind_Ok. constructor; [done|]. by apply IH.
Qed.

Lemma connect_nodes_total lk i src_desc dest_desc nodes :
  link_id lk = Some i →
  ∃ nodes', connect_nodes lk src_desc dest_desc nodes = Ok nodes'.
Proof.
  intros Hid. induction nodes as [|n ns [ns' IH]]; simpl; [by eexists|].
  rewrite Hid, IH.
  destruct (annotate_ports_total (Some (source_port_id lk)) i src_desc
              (node_ports n)) as [ps1 ->].
  destruct (annotate_ports_total (destination_port_id lk) i dest_desc
              (node_ports n)) as [ps2 ->].
  repeat case_decide; by eexists.
Qed.

Lemma port_frame_refl lk n p : port_frame lk n p p.
Proof. by split_and!. Qed.

Lemma node_frame_refl lk n : node_frame lk n n.
Proof.
  split_and!; try done.
  apply Forall_Forall2_diag, Forall_forall. intros p _. apply port_frame_refl.
Qed.

Lemma connect_nodes_frame lk src_desc dest_desc nodes nodes' :
  connect_nodes lk src_desc dest_desc nodes = Ok nodes' →
  Forall2 (node_frame lk) nodes nodes'.
Proof.
  revert nodes'. induction nodes as [|n ns IH]; simpl; intros nodes'.
  { intros [= <-]. constructor. }
  intros (n' & Hn & (ns' & Hns & [= <-])%bind_Ok)%bind_Ok.
  constructor; [|by apply IH]. clear IH Hns.
  case_decide as Hsrc; [|case_decide as Hdst].
  - apply bind_Ok in Hn as (ps & Hps%annotate_ports_frame & [= <-]).
    split_and!; try done. simpl.
    eapply Forall2_impl; [done|]. intros p p' (? & ? & Hch).
    split_and!; try done. intros [= ?]%Hch. by left.
  - apply bind_Ok in Hn as (ps & Hps%annotate_ports_frame & [= <-]).
    split_and!; try done. simpl.
    eapply Forall2_impl; [done|]. intros p p' (? & ? & Hch).
    split_and!; try done. intros ?%Hch. by right.
  - injection Hn as <-. apply node_frame_refl.
Qed.

Lemma connect_nodes_self_link lk src_desc dest_desc nodes nodes' :
  Some (source_node_id lk) = destination_node_id lk →
  connect_nodes lk src_desc dest_desc nodes = Ok nodes' →
  Forall2 (self_link_frame lk) nodes nodes'.
Proof.
  intros Hself Hc. apply connect_nodes_frame in Hc.
  eapply Forall2_impl; [done|]. intros n n' (_ & _ & _ & _ & _ & _ & _ & _ & Hps).
  eapply Forall2_impl; [done|]. intros p p' (_ & _ & Hch) Hne.
  destruct (decide (p' = p)) as [|Hp]; [done|].
  destruct (Hch Hp) as [[_ ?]|(Hn & Hd & _)]; [done|].
  rewrite <-Hself in Hd. by injection Hd.
Qed.

Lemma add_node_connections_total lk i nodes :
  link_id lk = Some i → ∃ nodes', add_node_connections lk nodes = Ok nodes'.
Proof. intros Hi. unfold add_node_connections. by eapply connect_nodes_total. Qed.

(** C10. [add_node_connections] returns once the link has its [id]; it
    keeps every node field but [ports], keeps [id] and [name] of every
    port, and touches a port only if it is the source port on the source
    node or the destination port on a destination node other than the
    source node.  On a link whose two node ids are equal every port other
    than the source port, the destination port among them, stays as it
    was. *)
Theorem add_node_connections_frame (lk : link) (nodes : list node) :
  (is_Some (link_id lk) → ∃ nodes', add_node_connections lk nodes = Ok nodes') ∧
  ∀ nodes', add_node_connections lk nodes = Ok nodes' →
    Forall2 (node_frame lk) nodes nodes' ∧
    (Some (source_node_id lk) = destination_node_id lk →
     Forall2 (self_link_frame lk) nodes nodes').
Proof.
  unfold add_node_connections. split.
  - intros [i Hi]. by eapply connect_nodes_total.
  - intros nodes' Hc. split.
    + by eapply connect_nodes_frame.
    + intros Hself. by eapply connect_nodes_self_link.
Qed.

Lemma add_node_connections_frame_witness :
  is_Some (link_id self_link) ∧
  ∃ nodes', add_node_connections self_link one_router = Ok nodes' ∧
            Forall2 (node_frame self_link) one_router nodes' ∧
            Forall2 (self_link_frame self_link) one_router nodes'.
Proof.
  split; [by eexists|].
  destruct (add_node_connections_frame self_link one_router) as [Htot Hfr].
  destruct (Htot (mk_is_Some _ _ eq_refl)) as [nodes' Hn].
  exists nodes'. split; [exact Hn|].
  destruct (Hfr nodes' Hn) as [H1 H2]. split; [exact H1|exact (H2 eq_refl)].
Defined.

(** ** [str] of integers and the endpoint keys *)

Lemma all_chars_contains P c s :
  all_chars P s = true → P c = false → contains c s = false.
Proof.
  induction s as [|c' s IH]; simpl; [done|].
  intros [Hc Hs]%andb_true_iff Hp. case_decide; [congruence|auto].
Qed.

Lemma all_chars_app P s1 s2 :
  all_chars P (s1 +:+ s2) = all_chars P s1 && all_chars P s2.
Proof. induction s1 as [|c s1 IH]; simpl; [done|]. by rewrite IH, andb_assoc. Qed.

Lemma pretty_N_go_chars P x s :
  (∀ d, P (pretty_N_char d) = true) →
  all_chars P s = true → all_chars P (pretty_N_go x s) = true.
Proof.
  intros Hd. revert s. induction (N.lt_wf_0 x) as [x _ IH]; intros s Hs.
  destruct (decide (x = 0)%N) as [->|Hx]; [by rewrite pretty_N_go_0|].
  rewrite pretty_N_go_step by lia. apply IH.
  - apply N.div_lt; lia.
  - simpl. by rewrite Hd, Hs.
Qed.

Lemma pretty_N_char_plain d : not_in_number (pretty_N_char d) = true.
Proof. unfold pretty_N_char. by repeat case_match. Qed.

Lemma pretty_Z_chars (z : Z) : all_chars not_in_number (pretty z) = true.
Proof.
  assert (∀ p : positive, all_chars not_in_number (pretty p) = true) as Hpos.
  { intros p. unfold pretty, pretty_positive, pretty, pretty_N.
    case_decide; [done|]. by apply pretty_N_go_chars; [apply pretty_N_char_plain|]. }
  destruct z as [|p|p]; [done|apply Hpos|].
  unfold pretty, pretty_Z. rewrite all_chars_app. by rewrite Hpos.
Qed.

Lemma py_str_no_colon x : contains ":" (py_str x) = false.
Proof.
  destruct x as [z|]; [|done]. simpl.
  by eapply all_chars_contains; [apply pretty_Z_chars|].
Qed.

Global Instance py_str_inj : Inj (=) (=) py_str.
Proof.
  assert (∀ z : Z, pretty z ≠ "None") as Hne.
  { intros z Hz. pose proof (pretty_Z_chars z) as Hc. by rewrite Hz in Hc. }
  intros [x|] [y|]; simpl; intros Heq; try done.
  - by apply (inj pretty) in Heq as ->.
  - by apply Hne in Heq.
  - symmetry in Heq. by apply Hne in Heq.
Qed.

(** The string [a:b] determines [a] and [b]: comparing [t_link] with
    [d_link] compares the endpoints. *)
Lemma endpoint_key_inj a b a' b' :
  py_str a +:+ ":" +:+ py_str b = py_str a' +:+ ":" +:+ py_str b' →
  a = a' ∧ b = b'.
Proof.
  intros Heq.
  change (?s +:+ ":" +:+ ?t) with (s +:+ String ":" t) in Heq.
  destruct (str_index_app_first ":" (py_str a) (py_str b) (py_str_no_colon a))
    as [Hi Hs].
  destruct (str_index_app_first ":" (py_str a') (py_str b') (py_str_no_colon a'))
    as [Hi' Hs'].
  rewrite Heq, Hi' in Hi. injection Hi as Hlen.
  rewrite Heq, <-Hlen, Hs' in Hs.
  rewrite Hs in Heq. apply (inj (String.app _)) in Heq. injection Heq as Hb.
  split; by apply (inj py_str).
Qed.

Lemma t_link_d_link lk lk2 :
  t_link_of lk = d_link_of lk2 ↔
  destination_node_id lk2 = Some (source_node_id lk) ∧
  destination_port_id lk2 = Some (source_port_id lk).
Proof.
  unfold t_link_of, d_link_of. split.
  - by intros [-> ->]%endpoint_key_inj.
  - by intros [-> ->].
Qed.

(** ** The numbering loop of generate_links *)

Lemma list_remove_sublist heap x links :
  list_remove heap x links `sublist_of` links.
Proof.
  induction links as [|r rs IH]; simpl; [done|].
  case_decide; by constructor.
Qed.


Lemma remove_duplicate_cases heap t links rest :
  remove_duplicate heap t links rest = links ∨
  ∃ r2, t = d_link_of (heap !!! r2) ∧
        remove_duplicate heap t links rest = list_remove heap r2 links.
Proof.
  induction rest as [|r2 rest IH]; simpl; [by left|].
  case_decide; [right; by exists r2|done].
Qed.

Lemma remove_duplicate_sublist heap t links rest :
  remove_duplicate heap t links rest `sublist_of` links.
Proof.
  destruct (remove_duplicate_cases heap t links rest) as [->|(r2 & _ & ->)];
    [done|apply list_remove_sublist].
Qed.


(** The inner loop deletes the first entry whose destination endpoint is
    the source endpoint looked for, and nothing else: equality of
    dictionaries, which [remove] goes by, cannot hit an earlier entry. *)
Lemma remove_duplicate_first_match (heap : list link) t pre r2 post :
  Forall (λ r, d_link_of (heap !!! r) ≠ t) pre →
  d_link_of (heap !!! r2) = t →
  remove_duplicate heap t (pre ++ r2 :: post) (pre ++ r2 :: post) = pre ++ post.
Proof.
  intros Hpre Hr2.
  assert (∀ links, remove_duplicate heap t links (pre ++ r2 :: post)
                   = list_remove heap r2 links) as ->.
  { intros links. induction Hpre as [|r pre Hr _ IH]; simpl.
    - by rewrite decide_True.
    - by rewrite decide_False. }
  induction Hpre as [|r pre Hr _ IH]; simpl.
  - rewrite decide_True; [done|by left].
  - rewrite decide_False, IH; [done|].
    intros [->|Heq]; apply Hr; [done|]. by rewrite Heq.
Qed.


(** The bound [len(links)] on the number of rounds is never what ends the
    loop: with more rounds allowed the result is the same. *)
Lemma number_links_rounds n k i s :
  (length (ls_links s) ≤ i + n)%nat →
  number_links (n + k) i s = number_links n i s.
Proof.
  revert k i s. induction n as [|n IH]; intros k i s Hlen; simpl.
  - destruct k as [|k]; simpl; [done|].
    by rewrite (lookup_ge_None_2 (ls_links s) i) by lia.
  - destruct (ls_links s !! i) as [r|]; [|done].
    destruct (add_node_connections _ _) as [nodes'|]; simpl; [|done].
    apply IH. simpl.
    pose proof (sublist_length _ _
      (remove_duplicate_sublist (ls_heap s) (t_link_of (ls_heap s !!! r))
         (ls_links s) (ls_links s))). lia.
Qed.

(** ** generate_links *)

Lemma resolve_link_expanded `{Adapters} nodes c dest_port :
  expand_port (cand_dest_port c) = Ok dest_port →
  resolve_link nodes c =
    Ok (Link ("Link from " +:+ cand_source_dev c +:+ " port "
              +:+ cand_source_port_name c +:+ " to "
              +:+ default "None"
                    (device_name
                       (convert_destination_to_id (cand_dest_dev c) dest_port nodes).1)
              +:+ " port " +:+ dest_port)
             (device_id (convert_destination_to_id (cand_dest_dev c) dest_port nodes).1)
             (convert_destination_to_id (cand_dest_dev c) dest_port nodes).2
             (cand_source_port_id c) (cand_source_node_id c) None).
Proof.
  intros Hx. unfold resolve_link. rewrite Hx. simpl.
  by destruct (convert_destination_to_id _ _ _).
Qed.


(** C8. Scenario A through all stages: from the raw topology with the
    routers R1 and R2 the grouper, the node builder and the link resolver
    produce two nodes with one port each, [FastEthernet0/0] with the port
    ids 1 and 2, and a single link, numbered 1, from port 1 of R1 to port
    2 of R2; after the link resolver both ports carry link id 1 and name
    their peer. *)
Theorem scenario_A_single_link :
  @pipeline scenario_ip scenario_models scenario_names
    (@spec_node_class scenario_adapters scenario_hardware) scenario_adapters
    scenario_A_topology [∅]
  = Ok ([Node 1 "Router" "R1" "R1" "-100" "0" (Some 1)
              {[ "slot0" := "NM-1FE-TX" ]}
              [Port 1 "FastEthernet0/0" None None];
         Node 2 "Router" "R2" "R2" "100" "0" (Some 2)
              {[ "slot0" := "NM-1FE-TX" ]}
              [Port 2 "FastEthernet0/0" None None]],
        [Link "Link from R1 port FastEthernet0/0 to R2 port FastEthernet0/0"
              (Some 2) (Some 2) 1 1 (Some 1)],
        [Node 1 "Router" "R1" "R1" "-100" "0" (Some 1)
              {[ "slot0" := "NM-1FE-TX" ]}
              [Port 1 "FastEthernet0/0" (Some 1)
                    (Some "connected to R2 on port FastEthernet0/0")];
         Node 2 "Router" "R2" "R2" "100" "0" (Some 2)
              {[ "slot0" := "NM-1FE-TX" ]}
              [Port 2 "FastEthernet0/0" (Some 1)
                    (Some "connected to R1 on port FastEthernet0/0")]]).
Proof. vm_compute. reflexivity. Qed.

(** C1. On the three routers, where R1 names as its peer a port that is
    linked to R3 and back, the returned list holds both directions of the
    edge between R2 and R3. *)
Theorem generate_links_leaves_duplicate_edge :
  ∃ links nodes',
    @generate_links scenario_adapters three_router_links three_routers
    = Ok (links, nodes') ∧
    ¬ no_duplicate_edges links.
Proof.
  eexists _, _. split; [vm_compute; reflexivity|].
  intros Hno. eapply (Hno 0%nat 1%nat); [done|reflexivity|reflexivity|].
  by split_and!.
Qed.

(** C2. On the same input the returned list is [a; b] where [a] carries
    id 2 and [b] carries no id at all: the link that received id 1 was
    removed afterwards and the iterator never reached [b]. *)
Theorem generate_links_skips_numbering :
  ∃ a b nodes',
    @generate_links scenario_adapters three_router_links three_routers
    = Ok ([a; b], nodes') ∧
    link_id a = Some 2 ∧ link_id b = None ∧
    ¬ sequential_ids [a; b].
Proof.
  eexists _, _, _. split; [vm_compute; reflexivity|].
  split; [done|]. split; [done|].
  intros Hseq. by specialize (Hseq 0%nat _ eq_refl).
Qed.

(** ** process_topology *)

Section grouper.
Context `{Models} `{TopologyClass}.
Implicit Types (section : gmap string item_value) (t : topology).
Implicit Types (old_top : gmap string (gmap string item_value)).

Lemma process_instances_total old_top instances t :
  (∀ instance, instance ∈ instances → is_Some (old_top !! instance)) →
  ∃ t', process_instances old_top instances t = Ok t'.
Proof.
  revert t. induction instances as [|instance rest IH]; intros t Hin; simpl.
  { by eexists. }
  destruct (Hin instance) as [section Hs]; [by left|].
  unfold getitem. rewrite Hs. simpl. apply IH.
  intros i Hi. apply Hin. by right.
Qed.
End grouper.

Section grouper_calls.
Context `{Models}.
Implicit Types (section : gmap string item_value) (t : call_log).
Implicit Types (old_top : gmap string (gmap string item_value)).

(** *** The calls the loop makes *)

Lemma recording_process_item section instance item t :
  @process_item _ recording section instance item t
  = CallLog (cl_hv_id t)
      (cl_calls t ++ option_list (classify (cl_hv_id t) instance section item)).
Proof.
  unfold process_item, classify. destruct t as [hv calls].
  destruct (section !! item) as [[v|attrs]|]; simpl;
    rewrite ?app_nil_r; try done.
  by case_decide.
Qed.

Lemma recording_foldl section instance items t :
  foldl (λ t item, @process_item _ recording section instance item t) t items
  = CallLog (cl_hv_id t)
      (cl_calls t ++ omap (classify (cl_hv_id t) instance section) items).
Proof.
  revert t. induction items as [|item items IH]; intros t; simpl.
  { destruct t. by rewrite app_nil_r. }
  rewrite IH, recording_process_item. simpl.
  destruct (classify _ _ _ _); simpl; by rewrite <-?app_assoc, ?app_nil_r.
Qed.

Lemma recording_process_instances old_top instances t t' :
  @process_instances _ recording old_top instances t = Ok t' →
  t' = CallLog (cl_hv_id t + length instances)
         (cl_calls t ++
          mjoin (imap (λ pos instance,
                         let section := default ∅ (old_top !! instance) in
                         omap (classify (cl_hv_id t + pos) instance section)
                              (sorted_keys section))
                      instances)).
Proof.
  revert t. induction instances as [|instance rest IH]; intros t; simpl.
  { intros [= <-]. destruct t. simpl. by rewrite Nat.add_0_r, app_nil_r. }
  intros (section & Hs%getitem_Ok & Hrest)%bind_Ok.
  rewrite (IH _ Hrest), recording_foldl, Hs. simpl.
  rewrite Nat.add_0_r, <-app_assoc. f_equal; [lia|]. do 3 f_equal.
  apply imap_ext. intros pos i _. simpl. by rewrite Nat.add_succ_r.
Qed.

Lemma process_topology_recording sections old_top :
  (∀ instance, instance ∈ sections → is_Some (old_top !! instance)) →
  @process_topology _ recording sections old_top
  = Ok (grouping_steps sections old_top, length sections).
Proof.
  intros Hin. unfold process_topology.
  destruct (@process_instances_total _ recording old_top (sorted sections)
              (CallLog 0 [])) as [t Ht].
  { intros i Hi%elem_of_sorted_1. by apply Hin. }
  simpl. rewrite Ht. simpl.
  rewrite (recording_process_instances _ _ _ _ Ht). simpl.
  by rewrite sorted_length.
Qed.

Lemma elem_of_grouping_steps sections old_top st :
  st ∈ grouping_steps sections old_top ↔
  ∃ pos instance item,
    sorted sections !! pos = Some instance ∧
    classify pos instance (default ∅ (old_top !! instance)) item = Some st.
Proof.
  unfold grouping_steps. rewrite list_elem_of_join. split.
  - intros (l & Hst & (pos & instance & -> & Hpos)%elem_of_lookup_imap).
    apply list_elem_of_omap in Hst as (item & _ & Hc).
    by exists pos, instance, item.
  - intros (pos & instance & item & Hpos & Hc).
    eexists. split; [|apply elem_of_lookup_imap; by exists pos, instance].
    simpl. apply list_elem_of_omap. exists item. split; [|done].
    apply elem_of_sorted_keys. unfold classify in Hc.
    destruct (default ∅ (old_top !! instance) !! item); [by eexists|done].
Qed.

Lemma classify_Some pos instance section item st :
  classify pos instance section item = Some st ↔
  (section_item true section item ∧ st = RouteConf pos instance item) ∨
  (section_item false section item ∧ st = MergePhysical pos instance item).
Proof.
  unfold classify, section_item.
  destruct (section !! item) as [[v|attrs]|] eqn:Hitem.
  - split; [done|]. by intros [[(? & ? & _) _]|[(? & ? & _) _]].
  - case_decide as Hm; (split; [intros [= <-]|]).
    + left. split; [|done]. exists attrs. by rewrite bool_decide_eq_true.
    + intros [[_ ->]|[(? & _ & Hb%bool_decide_eq_false) _]]; done.
    + right. split; [|done]. exists attrs. by rewrite bool_decide_eq_false.
    + intros [[(? & _ & Hb%bool_decide_eq_true) _]|[_ ->]]; done.
  - split; [done|]. by intros [[(? & ? & _) _]|[(? & ? & _) _]].
Qed.

Lemma section_item_default conf_side old_top instance item :
  section_item conf_side (default ∅ (old_top !! instance)) item ↔
  ∃ section, old_top !! instance = Some section ∧
             section_item conf_side section item.
Proof.
  destruct (old_top !! instance) as [section|]; simpl.
  - split; [by exists section|]. by intros (? & [= <-] & ?).
  - split; [|by intros (? & ? & _)].
    intros (attrs & Hl & _). by rewrite lookup_empty in Hl.
Qed.

Lemma routed_grouping_steps sections old_top pos instance item :
  RouteConf pos instance item ∈ grouping_steps sections old_top ↔
  sorted sections !! pos = Some instance ∧ conf_item old_top instance item.
Proof.
  rewrite elem_of_grouping_steps. unfold conf_item.
  rewrite <-section_item_default. split.
  - intros (pos' & instance' & item' & Hpos & Hc).
    apply classify_Some in Hc as [[Hs [= -> -> ->]]|[_ ?]]; done.
  - intros [Hpos Hs]. exists pos, instance, item. split; [done|].
    apply classify_Some. by left.
Qed.

Lemma merged_grouping_steps sections old_top pos instance item :
  MergePhysical pos instance item ∈ grouping_steps sections old_top ↔
  sorted sections !! pos = Some instance ∧ physical_item old_top instance item.
Proof.
  rewrite elem_of_grouping_steps. unfold physical_item.
  rewrite <-section_item_default. split.
  - intros (pos' & instance' & item' & Hpos & Hc).
    apply classify_Some in Hc as [[_ ?]|[Hs [= -> -> ->]]]; done.
  - intros [Hpos Hs]. exists pos, instance, item. split; [done|].
    apply classify_Some. by right.
Qed.

Lemma elem_of_sorted_lookup x xs : x ∈ xs ↔ ∃ pos, sorted xs !! pos = Some x.
Proof. by rewrite <-elem_of_sorted, list_elem_of_lookup. Qed.
End grouper_calls.

Section grouper_spec.
Context `{Models} `{DeviceNames}.
Implicit Types (section : gmap string item_value) (t : legacy_topology).
Implicit Types (old_top : gmap string (gmap string item_value)).

(** *** The topology of the specification under the loop *)

Lemma spec_process_item_frame section instance item t :
  lt_old_top (@process_item _ spec_topology section instance item t)
  = lt_old_top t ∧
  lt_hv_id (@process_item _ spec_topology section instance item t)
  = lt_hv_id t.
Proof.
  unfold process_item. destruct (section !! item) as [[v|attrs]|]; try done.
  by case_decide.
Qed.

Lemma spec_foldl_frame section instance items t :
  lt_old_top (foldl (λ t item, @process_item _ spec_topology section instance item t)
                    t items) = lt_old_top t ∧
  lt_hv_id (foldl (λ t item, @process_item _ spec_topology section instance item t)
                  t items) = lt_hv_id t.
Proof.
  revert t. induction items as [|item items IH]; intros t; simpl; [done|].
  destruct (IH (@process_item _ spec_topology section instance item t)) as [-> ->].
  apply spec_process_item_frame.
Qed.

Lemma merged_last_write pos next item attrs old :
  DeviceRecord (Some pos) (Some next)
    (last_write (attrs !! "x") (dr_x (default empty_record old)))
    (last_write (attrs !! "y") (dr_y (default empty_record old)))
    (Some (device_typename item).2)
    (last_write (attrs !! "model") (dr_model (default empty_record old)))
    (other_items attrs ∪ dr_items (default empty_record old))
  = merged pos next item attrs old.
Proof.
  unfold merged.
  destruct old as [[? ? [?|] [?|] ? [?|] ?]|],
    (attrs !! "x"), (attrs !! "y"), (attrs !! "model"); reflexivity.
Qed.

Lemma spec_process_item_step section instance item t :
  grouped_of (@process_item _ spec_topology section instance item t)
  = from_option (apply_step (lt_old_top t) (grouped_of t)) (grouped_of t)
      (classify (lt_hv_id t) instance section item).
Proof.
  unfold process_item, classify.
  destruct (section !! item) as [[v|attrs]|]; try done.
  case_decide; [done|]. simpl. unfold grouped_of, spec_add_physical_item. simpl.
  f_equal. rewrite merged_last_write.
  apply partial_alter_ext. by intros old ->.
Qed.

Lemma spec_foldl_steps section instance items t :
  grouped_of (foldl (λ t item, @process_item _ spec_topology section instance item t)
                    t items)
  = foldl (apply_step (lt_old_top t)) (grouped_of t)
      (omap (classify (lt_hv_id t) instance section) items).
Proof.
  revert t. induction items as [|item items IH]; intros t; simpl; [done|].
  rewrite IH, spec_process_item_step.
  destruct (spec_process_item_frame section instance item t) as [-> ->].
  by destruct (classify _ _ _ _).
Qed.

Lemma spec_process_instances_steps old_top instances t t' :
  @process_instances _ spec_topology old_top instances t = Ok t' →
  grouped_of t'
  = foldl (apply_step (lt_old_top t)) (grouped_of t)
      (mjoin (imap (λ pos instance,
                      let section := default ∅ (old_top !! instance) in
                      omap (classify (lt_hv_id t + pos) instance section)
                           (sorted_keys section))
                   instances)).
Proof.
  revert t. induction instances as [|instance rest IH]; intros t; simpl.
  { by intros [= <-]. }
  intros (section & Hs%getitem_Ok & Hrest)%bind_Ok.
  rewrite (IH _ Hrest), foldl_app, Hs. simpl.
  destruct (spec_foldl_frame section instance (sorted_keys section) t)
    as [-> ->].
  change (Grouped ?d ?c ?n) with (grouped_of (Topology (lt_old_top t) (S (lt_hv_id t)) n d c)).
  rewrite Nat.add_0_r, <-spec_foldl_steps. f_equal. f_equal.
  apply imap_ext. intros pos i _. simpl.
  by rewrite Nat.add_succ_r.
Qed.

Lemma process_topology_spec sections old_top :
  (∀ instance, instance ∈ sections → is_Some (old_top !! instance)) →
  @process_topology _ spec_topology sections old_top
  = Ok (run_steps old_top (grouping_steps sections old_top)).
Proof.
  intros Hin. unfold process_topology.
  destruct (@process_instances_total _ spec_topology old_top (sorted sections)
              (Topology old_top 0 1 ∅ ∅)) as [t Ht].
  { intros i Hi%elem_of_sorted_1. by apply Hin. }
  simpl. rewrite Ht. simpl. f_equal.
  pose proof (spec_process_instances_steps _ _ _ _ Ht) as Hg.
  unfold run_steps, grouping_steps. simpl in Hg.
  change (Grouped ∅ ∅ 1) with (grouped_of (Topology old_top 0 1 ∅ ∅)).
  by rewrite <-Hg.
Qed.
End grouper_spec.

Section grouper_records.
Context `{Models} `{DeviceNames}.
Implicit Types (section : gmap string item_value) (t : legacy_topology).
Implicit Types (old_top : gmap string (gmap string item_value)).

(** *** The [hv_id] of a device record *)

Lemma spec_item_devices_other section instance item t x :
  ¬ (section_item false section item ∧ (device_typename item).1 = x) →
  lt_devices (@process_item _ spec_topology section instance item t) !! x
  = lt_devices t !! x.
Proof.
  intros Hx. unfold process_item.
  destruct (section !! item) as [[v|attrs]|] eqn:Hitem; try done.
  case_decide as Hm; [done|]. simpl.
  apply lookup_insert_ne. intros Heq. apply Hx. split; [|done].
  exists attrs. by rewrite bool_decide_eq_false.
Qed.

Lemma spec_item_devices_hit section instance item t :
  section_item false section item →
  dr_hv_id <$> lt_devices (@process_item _ spec_topology section instance item t)
                 !! (device_typename item).1
  = Some (Some (lt_hv_id t)).
Proof.
  intros (attrs & Hitem & Hm%bool_decide_eq_false). unfold process_item.
  rewrite Hitem, decide_False by done. simpl.
  by rewrite lookup_insert_eq.
Qed.

Lemma spec_item_devices_keeps section instance item t x :
  dr_hv_id <$> lt_devices t !! x = Some (Some (lt_hv_id t)) →
  dr_hv_id <$> lt_devices (@process_item _ spec_topology section instance item t)
                 !! x
  = Some (Some (lt_hv_id t)).
Proof.
  intros Hx. unfold process_item.
  destruct (section !! item) as [[v|attrs]|] eqn:Hitem; try done.
  case_decide as Hm; [done|]. simpl.
  destruct (decide ((device_typename item).1 = x)) as [<-|Hne].
  - by rewrite lookup_insert_eq.
  - by rewrite lookup_insert_ne.
Qed.

Lemma spec_foldl_devices_other section instance items t x :
  (∀ item, item ∈ items →
           ¬ (section_item false section item ∧ (device_typename item).1 = x)) →
  lt_devices (foldl (λ t item, @process_item _ spec_topology section instance item t)
                    t items) !! x
  = lt_devices t !! x.
Proof.
  revert t. induction items as [|item items IH]; intros t Hx; simpl; [done|].
  rewrite IH, spec_item_devices_other; [done|..].
  - apply Hx. by left.
  - intros i Hi. apply Hx. by right.
Qed.

Lemma spec_foldl_devices_keeps section instance items t x :
  dr_hv_id <$> lt_devices t !! x = Some (Some (lt_hv_id t)) →
  dr_hv_id <$>
    lt_devices (foldl (λ t item, @process_item _ spec_topology section instance item t)
                      t items) !! x
  = Some (Some (lt_hv_id t)).
Proof.
  revert t. induction items as [|item items IH]; intros t Hx; simpl; [done|].
  destruct (spec_process_item_frame section instance item t) as [_ Hhv].
  rewrite <-Hhv. apply IH. rewrite Hhv. by apply spec_item_devices_keeps.
Qed.

Lemma spec_foldl_devices_hit section instance items t item :
  item ∈ items → section_item false section item →
  dr_hv_id <$>
    lt_devices (foldl (λ t item, @process_item _ spec_topology section instance item t)
                      t items) !! (device_typename item).1
  = Some (Some (lt_hv_id t)).
Proof.
  revert t. induction items as [|item0 items IH]; intros t Hin Hsec; simpl.
  { by apply elem_of_nil in Hin. }
  destruct (spec_process_item_frame section instance item0 t) as [_ Hhv].
  rewrite <-Hhv.
  apply elem_of_cons in Hin as [->|Hin]; [|by apply IH].
  apply spec_foldl_devices_keeps. rewrite Hhv.
  by apply spec_item_devices_hit.
Qed.

Lemma spec_instances_devices_other old_top instances t t' x :
  @process_instances _ spec_topology old_top instances t = Ok t' →
  (∀ instance, instance ∈ instances → ¬ device_item old_top instance x) →
  lt_devices t' !! x = lt_devices t !! x.
Proof.
  revert t. induction instances as [|instance rest IH]; intros t; simpl.
  { by intros [= <-]. }
  intros (section & Hs%getitem_Ok & Hrest)%bind_Ok Hno.
  rewrite (IH _ Hrest) by (intros i Hi; apply Hno; by right). simpl.
  apply spec_foldl_devices_other. intros item _ [Hsec Hx].
  apply (Hno instance); [by left|]. exists item. split; [|done].
  by exists section.
Qed.

Lemma spec_instances_devices_hit old_top instances t t' k instance x :
  @process_instances _ spec_topology old_top instances t = Ok t' →
  instances !! k = Some instance →
  device_item old_top instance x →
  (∀ k' instance', (k < k')%nat → instances !! k' = Some instance' →
                   ¬ device_item old_top instance' x) →
  dr_hv_id <$> lt_devices t' !! x = Some (Some (lt_hv_id t + k)%nat).
Proof.
  revert t k. induction instances as [|i rest IH]; intros t k; simpl; [done|].
  intros (section & Hs%getitem_Ok & Hrest)%bind_Ok Hk Hphys Hlater.
  destruct k as [|k]; simpl in Hk.
  - injection Hk as ->.
    rewrite (spec_instances_devices_other _ _ _ _ _ Hrest).
    + simpl. rewrite Nat.add_0_r.
      destruct Hphys as (item & (section' & Hs' & Hx) & <-). rewrite Hs in Hs'.
      injection Hs' as <-. apply spec_foldl_devices_hit; [|done].
      apply elem_of_sorted_keys. destruct Hx as (attrs & -> & _). by eexists.
    + intros i' [k' Hk']%list_elem_of_lookup.
      apply (Hlater (S k')); [lia|done].
  - rewrite (IH _ _ Hrest Hk Hphys).
    + simpl.
      destruct (spec_foldl_frame section i (sorted_keys section) t) as [_ ->].
      do 2 f_equal. lia.
    + intros k' i' Hlt Hk'. apply (Hlater (S k')); [lia|done].
Qed.

(** *** The names in the two outputs *)

Lemma partial_alter_Some {A} (F : option A → A) (k : string) (m : gmap string A) :
  partial_alter (λ old, Some (F old)) k m = <[k := F (m !! k)]> m.
Proof. apply partial_alter_ext. by intros old ->. Qed.

Lemma apply_step_conf_names old_top g st x :
  x ∈ dom (g_conf (apply_step old_top g st)) ↔
  x ∈ dom (g_conf g) ∨ ∃ pos instance, st = RouteConf pos instance x.
Proof.
  destruct st as [pos instance item|pos instance item]; simpl.
  - rewrite dom_insert, elem_of_union, elem_of_singleton. split.
    + intros [->|?]; [right; by eexists _, _|by left].
    + intros [?|(? & ? & [= _ _ ->])]; [by right|by left].
  - split; [by left|]. by intros [?|(? & ? & ?)].
Qed.

Lemma foldl_conf_names old_top steps g x :
  x ∈ dom (g_conf (foldl (apply_step old_top) g steps)) ↔
  x ∈ dom (g_conf g) ∨ ∃ pos instance, RouteConf pos instance x ∈ steps.
Proof.
  revert g. induction steps as [|st steps IH]; intros g; simpl.
  - split; [by left|]. by intros [?|(? & ? & ?%elem_of_nil)].
  - rewrite IH, apply_step_conf_names. split.
    + intros [[?|(pos & i & ->)]|(pos & i & ?)]; [by left|right..].
      * exists pos, i. by left.
      * exists pos, i. by right.
    + intros [?|(pos & i & [<-|?]%elem_of_cons)].
      * by left; left.
      * left. right. by exists pos, i.
      * right. by exists pos, i.
Qed.

Lemma apply_step_device_names old_top g st x :
  x ∈ dom (g_devices (apply_step old_top g st)) ↔
  x ∈ dom (g_devices g) ∨
  ∃ pos instance item,
    st = MergePhysical pos instance item ∧ (device_typename item).1 = x.
Proof.
  destruct st as [pos instance item|pos instance item]; simpl.
  - split; [by left|]. by intros [?|(? & ? & ? & ? & _)].
  - rewrite partial_alter_Some, dom_insert, elem_of_union, elem_of_singleton.
    split.
    + intros [->|?]; [right; by eexists _, _, _|by left].
    + intros [?|(? & ? & ? & [= _ _ ->] & <-)]; [by right|by left].
Qed.

Lemma foldl_device_names old_top steps g x :
  x ∈ dom (g_devices (foldl (apply_step old_top) g steps)) ↔
  x ∈ dom (g_devices g) ∨
  ∃ pos instance item,
    MergePhysical pos instance item ∈ steps ∧ (device_typename item).1 = x.
Proof.
  revert g. induction steps as [|st steps IH]; intros g; simpl.
  - split; [by left|]. by intros [?|(? & ? & ? & ?%elem_of_nil & _)].
  - rewrite IH, apply_step_device_names. split.
    + intros [[?|(pos & i & it & -> & Hx)]|(pos & i & it & ? & Hx)];
        [by left|right..].
      * exists pos, i, it. split; [by left|done].
      * exists pos, i, it. split; [by right|done].
    + intros [?|(pos & i & it & [<-|?]%elem_of_cons & Hx)].
      * by left; left.
      * left. right. by exists pos, i, it.
      * right. by exists pos, i, it.
Qed.

(** *** Scalar options *)

Lemma drop_scalars_lookup section item :
  drop_scalars section !! item
  = match section !! item with
    | Some (Section_ attrs) => Some (Section_ attrs)
    | _ => None
    end.
Proof.
  unfold drop_scalars. rewrite map_lookup_filter.
  destruct (section !! item) as [[v|attrs]|]; simpl; try done.
Qed.

Lemma attributes_drop_scalars old_top instance item :
  attributes (drop_scalars <$> old_top) instance item
  = attributes old_top instance item.
Proof.
  unfold attributes. rewrite lookup_fmap.
  destruct (old_top !! instance) as [section|]; simpl; [|done].
  rewrite drop_scalars_lookup.
  by destruct (section !! item) as [[v|attrs]|].
Qed.

Lemma classify_drop_scalars pos instance section item :
  classify pos instance (drop_scalars section) item
  = classify pos instance section item.
Proof.
  unfold classify. rewrite drop_scalars_lookup.
  by destruct (section !! item) as [[v|attrs]|].
Qed.

Lemma omap_filter_None {A B} (f : A → option B) (P : A → Prop)
    `{∀ x, Decision (P x)} (l : list A) :
  (∀ x, x ∈ l → ¬ P x → f x = None) → omap f (filter P l) = omap f l.
Proof.
  induction l as [|x l IH]; intros Hf; [done|].
  assert (omap f (filter P l) = omap f l) as IH'.
  { apply IH. intros y Hy. apply Hf. by right. }
  rewrite filter_cons. destruct (decide (P x)) as [HP|HP].
  - change (omap f (x :: ?k)) with (from_option (λ y, y :: omap f k) (omap f k) (f x)).
    by rewrite IH'.
  - change (omap f (x :: l)) with (from_option (λ y, y :: omap f l) (omap f l) (f x)).
    rewrite (Hf x); [done|by left|done].
Qed.

Lemma omap_pointwise {A B} (f g : A → option B) (l : list A) :
  (∀ x, f x = g x) → omap f l = omap g l.
Proof.
  intros Hfg. induction l as [|x l IH]; [done|].
  change (omap f (x :: l)) with (from_option (λ y, y :: omap f l) (omap f l) (f x)).
  by rewrite IH, Hfg.
Qed.

Lemma sorted_keys_drop_scalars section :
  sorted_keys (drop_scalars section)
  = filter (λ item, is_Some (drop_scalars section !! item)) (sorted_keys section).
Proof.
  apply (StronglySorted_unique String.le).
  - apply sorted_StronglySorted.
  - eapply StronglySorted_sublist; [apply sublist_filter|].
    apply sorted_StronglySorted.
  - apply NoDup_Permutation.
    + apply NoDup_sorted_keys.
    + apply NoDup_filter, NoDup_sorted_keys.
    + intros item. rewrite list_elem_of_filter, !elem_of_sorted_keys.
      split; [|by intros [? _]]. intros Hs. split; [done|].
      rewrite drop_scalars_lookup in Hs.
      destruct (section !! item); [by eexists|by destruct Hs].
Qed.

Lemma grouping_steps_drop_scalars sections old_top :
  grouping_steps sections (drop_scalars <$> old_top)
  = grouping_steps sections old_top.
Proof.
  unfold grouping_steps. f_equal. apply imap_ext. intros pos instance _. simpl.
  rewrite lookup_fmap.
  assert (default ∅ (drop_scalars <$> old_top !! instance)
          = drop_scalars (default ∅ (old_top !! instance))) as ->.
  { destruct (old_top !! instance); simpl; [done|].
    unfold drop_scalars. by rewrite map_filter_empty. }
  rewrite sorted_keys_drop_scalars, omap_filter_None.
  - apply omap_pointwise. intros item. apply classify_drop_scalars.
  - intros item _ Hno. rewrite classify_drop_scalars. unfold classify.
    rewrite drop_scalars_lookup in Hno.
    destruct (default ∅ (old_top !! instance) !! item) as [[v|attrs]|];
      [done| |done].
    destruct Hno. by eexists.
Qed.

Lemma run_steps_drop_scalars old_top steps :
  run_steps (drop_scalars <$> old_top) steps = run_steps old_top steps.
Proof.
  unfold run_steps.
  assert (∀ g, foldl (apply_step (drop_scalars <$> old_top)) g steps
               = foldl (apply_step old_top) g steps) as ->; [|done].
  induction steps as [|st steps IH]; intros g; simpl; [done|].
  rewrite IH. f_equal.
  destruct st; simpl; by rewrite attributes_drop_scalars.
Qed.
End grouper_records.

Lemma conf_item_not_physical `{Models} old_top instance item :
  conf_item old_top instance item → ¬ physical_item old_top instance item.
Proof.
  intros (s1 & Hs1 & _ & _ & Ht) (s2 & Hs2 & _ & _ & Hf). congruence.
Qed.

(** C5. When every section key is a key of the raw topology,
    [process_topology] returns.  The calls it makes on the topology are
    these: an item is routed into the configuration snippets exactly when
    it is a sub-section whose name is in the config-role table, and merged
    into the device records exactly when it is a sub-section whose name is
    not, never both; an item that is a scalar option is neither.  On the
    topology of the specification the configuration snippets are those of
    the configuration items and the device records those of the devices of
    the physical items.  The scalar options are skipped without effect:
    with them taken out of the raw topology the calls and the outputs are
    the same. *)
Theorem process_topology_classifies_sections `{Models} `{DeviceNames}
    (sections : list string) (old_top : gmap string (gmap string item_value)) :
  (∀ instance, instance ∈ sections → is_Some (old_top !! instance)) →
  ∃ calls devs cf,
    @process_topology _ recording sections old_top
    = Ok (calls, length sections) ∧
    @process_topology _ spec_topology sections old_top = Ok (devs, cf) ∧
    (∀ instance item,
       routed calls instance item ↔
       instance ∈ sections ∧ conf_item old_top instance item) ∧
    (∀ instance item,
       merged_in calls instance item ↔
       instance ∈ sections ∧ physical_item old_top instance item) ∧
    (∀ instance item,
       ¬ (routed calls instance item ∧ merged_in calls instance item)) ∧
    (∀ x, x ∈ dom cf ↔
          ∃ instance, instance ∈ sections ∧ conf_item old_top instance x) ∧
    (∀ x, x ∈ dom devs ↔
          ∃ instance, instance ∈ sections ∧ device_item old_top instance x) ∧
    @process_topology _ recording sections (drop_scalars <$> old_top)
    = Ok (calls, length sections) ∧
    @process_topology _ spec_topology sections (drop_scalars <$> old_top)
    = Ok (devs, cf).
Proof.
  intros Hin.
  assert (∀ instance, instance ∈ sections →
                      is_Some ((drop_scalars <$> old_top) !! instance)) as Hin'.
  { intros i Hi. rewrite lookup_fmap. destruct (Hin i Hi) as [s ->]. by eexists. }
  assert (∀ instance item,
            routed (grouping_steps sections old_top) instance item ↔
            instance ∈ sections ∧ conf_item old_top instance item) as Hrouted.
  { intros instance item. unfold routed. rewrite elem_of_sorted_lookup. split.
    - intros [pos [Hpos Hc]%routed_grouping_steps]. split; [by exists pos|done].
    - intros [[pos Hpos] Hc]. exists pos. by apply routed_grouping_steps. }
  assert (∀ instance item,
            merged_in (grouping_steps sections old_top) instance item ↔
            instance ∈ sections ∧ physical_item old_top instance item) as Hmerged.
  { intros instance item. unfold merged_in. rewrite elem_of_sorted_lookup. split.
    - intros [pos [Hpos Hc]%merged_grouping_steps]. split; [by exists pos|done].
    - intros [[pos Hpos] Hc]. exists pos. by apply merged_grouping_steps. }
  exists (grouping_steps sections old_top),
    (run_steps old_top (grouping_steps sections old_top)).1,
    (run_steps old_top (grouping_steps sections old_top)).2.
  split; [by apply process_topology_recording|].
  split; [rewrite process_topology_spec by done; by destruct (run_steps _ _)|].
  split; [done|]. split; [done|]. split.
  { intros instance item [[_ Hc]%Hrouted [_ Hp]%Hmerged].
    by apply (conf_item_not_physical old_top instance item). }
  split.
  { intros x. unfold run_steps. simpl. rewrite foldl_conf_names. simpl.
    rewrite dom_empty, elem_of_empty. split.
    - intros [[]|(pos & instance & Hst)].
      exists instance. apply Hrouted. by exists pos.
    - intros (instance & Hi). right. apply Hrouted in Hi as [pos Hst].
      by exists pos, instance. }
  split.
  { intros x. unfold run_steps. simpl. rewrite foldl_device_names. simpl.
    rewrite dom_empty, elem_of_empty. split.
    - intros [[]|(pos & instance & item & Hst & Hx)].
      exists instance.
      destruct (proj1 (Hmerged instance item)) as [Hi Hp]; [by exists pos|].
      split; [done|]. by exists item.
    - intros (instance & Hi & item & Hp & Hx). right.
      destruct (proj2 (Hmerged instance item)) as [pos Hst]; [done|].
      by exists pos, instance, item. }
  split.
  - rewrite process_topology_recording by done.
    by rewrite grouping_steps_drop_scalars.
  - rewrite process_topology_spec by done.
    rewrite grouping_steps_drop_scalars, run_steps_drop_scalars.
    by destruct (run_steps _ _).
Qed.

Lemma process_topology_classifies_sections_witness :
  ∃ calls devs cf,
    @process_topology scenario_models recording ["127.0.0.1:7200"] one_instance
    = Ok (calls, 1%nat) ∧
    @process_topology scenario_models (@spec_topology scenario_names)
      ["127.0.0.1:7200"] one_instance = Ok (devs, cf) ∧
    routed calls "127.0.0.1:7200" "7200" ∧
    ¬ merged_in calls "127.0.0.1:7200" "7200" ∧
    merged_in calls "127.0.0.1:7200" "ROUTER R1" ∧
    "7200" ∈ dom cf ∧ "R1" ∈ dom devs.
Proof.
  destruct (@process_topology_classifies_sections scenario_models scenario_names
              ["127.0.0.1:7200"] one_instance)
    as (calls & devs & cf & Hc & Hp & Hr & Hm & Hx & Hcf & Hdevs & _).
  { intros i ->%list_elem_of_singleton. by eexists. }
  assert (@conf_item scenario_models one_instance "127.0.0.1:7200" "7200") as H1.
  { exists one_section. split; [reflexivity|].
    exists {[ "image" := "c7200.image" ]}. split; vm_compute; reflexivity. }
  assert (@physical_item scenario_models one_instance "127.0.0.1:7200"
            "ROUTER R1") as H2.
  { exists one_section. split; [reflexivity|].
    exists {[ "model" := "7200" ]}. split; vm_compute; reflexivity. }
  assert ("127.0.0.1:7200" ∈ ["127.0.0.1:7200"]) as H0
    by (by apply list_elem_of_singleton).
  exists calls, devs, cf. split; [exact Hc|]. split; [exact Hp|].
  assert (routed calls "127.0.0.1:7200" "7200") as Hr1
    by (apply Hr; split; [exact H0|exact H1]).
  split; [exact Hr1|].
  split; [intros Hm1; apply (Hx "127.0.0.1:7200" "7200"); by split|].
  split; [apply Hm; split; [exact H0|exact H2]|].
  split.
  - apply Hcf. exists "127.0.0.1:7200". split; [exact H0|exact H1].
  - apply Hdevs. exists "127.0.0.1:7200". split; [exact H0|].
    exists "ROUTER R1". split; [exact H2|reflexivity].
Defined.

(** C5, as stated, fails: for the scalar item [workingdir] of the instance
    no call is made on the topology, neither to route nor to merge it, and
    nothing is raised. *)
Lemma scalar_item_not_classified :
  ¬ @every_item_classified scenario_models ["127.0.0.1:7200"] one_instance.
Proof.
  unfold every_item_classified.
  rewrite (@process_topology_recording scenario_models)
    by (intros i ->%list_elem_of_singleton; by eexists).
  intros Hall.
  destruct (Hall "127.0.0.1:7200" one_section "workingdir") as [[pos Hc]|[pos Hc]].
  - by apply list_elem_of_singleton.
  - apply lookup_singleton_eq.
  - by eexists.
  - apply (@routed_grouping_steps scenario_models) in Hc
      as [_ (s & Hs & attrs & Ha & _)].
    unfold one_instance in Hs. rewrite lookup_singleton_eq in Hs.
    injection Hs as <-. by vm_compute in Ha.
  - apply (@merged_grouping_steps scenario_models) in Hc
      as [_ (s & Hs & attrs & Ha & _)].
    unfold one_instance in Hs. rewrite lookup_singleton_eq in Hs.
    injection Hs as <-. by vm_compute in Ha.
Qed.

(** C7. On a topology that records the calls made on it,
    [process_topology] makes exactly the calls of the specification's step
    list, in its order: instances in sorted order, their items in sorted
    order, the sub-sections named in the config-role table routed and the
    other sub-sections merged, each under the position of its instance,
    and the counter ends at the number of instances.  On the topology of
    the specification the outputs are those of the step list, and the
    record of a device has for [hv_id] the position [k] of the last
    instance that holds a physical item of the device: the counter moves
    once per instance. *)
Theorem process_topology_follows_sorted_positions `{Models} `{DeviceNames}
    (sections : list string) (old_top : gmap string (gmap string item_value)) :
  (∀ instance, instance ∈ sections → is_Some (old_top !! instance)) →
  @process_topology _ recording sections old_top
  = Ok (grouping_steps sections old_top, length sections) ∧
  ∃ devs cf,
    @process_topology _ spec_topology sections old_top = Ok (devs, cf) ∧
    (devs, cf) = run_steps old_top (grouping_steps sections old_top) ∧
    ∀ k instance x,
      sorted sections !! k = Some instance →
      device_item old_top instance x →
      (∀ k' instance', (k < k')%nat → sorted sections !! k' = Some instance' →
                       ¬ device_item old_top instance' x) →
      dr_hv_id <$> devs !! x = Some (Some k).
Proof.
  intros Hin. split; [by apply process_topology_recording|].
  pose proof (process_topology_spec sections old_top Hin) as Hspec.
  unfold process_topology in Hspec |- *.
  destruct (@process_instances_total _ spec_topology old_top (sorted sections)
              (Topology old_top 0 1 ∅ ∅)) as [t Ht].
  { intros i Hi%elem_of_sorted_1. by apply Hin. }
  simpl in Hspec |- *. rewrite Ht in Hspec |- *. simpl in Hspec |- *.
  exists (lt_devices t), (lt_conf t). split; [done|].
  split; [congruence|].
  intros k instance x Hk Hdev Hlater.
  by rewrite (spec_instances_devices_hit _ _ _ _ _ _ _ Ht Hk Hdev Hlater).
Qed.

Lemma process_topology_follows_sorted_positions_witness :
  @process_topology scenario_models recording
    ["10.0.0.2:7200"; "10.0.0.1:7200"] two_instances
  = Ok ([MergePhysical 0 "10.0.0.1:7200" "ROUTER R1";
         RouteConf 1 "10.0.0.2:7200" "7200";
         MergePhysical 1 "10.0.0.2:7200" "ROUTER R2"], 2%nat) ∧
  ∃ devs cf,
    @process_topology scenario_models (@spec_topology scenario_names)
      ["10.0.0.2:7200"; "10.0.0.1:7200"] two_instances = Ok (devs, cf) ∧
    dr_hv_id <$> devs !! "R2" = Some (Some 1%nat).
Proof.
  destruct (@process_topology_follows_sorted_positions scenario_models
              scenario_names ["10.0.0.2:7200"; "10.0.0.1:7200"] two_instances)
    as (Hcalls & devs & cf & Hp & _ & Hhv).
  { intros i [->|[->|[]%elem_of_nil]%elem_of_cons]%elem_of_cons; by eexists. }
  split; [exact Hcalls|].
  exists devs, cf. split; [exact Hp|].
  apply (Hhv 1%nat "10.0.0.2:7200").
  - vm_compute. reflexivity.
  - exists "ROUTER R2". split; [|reflexivity].
    exists second_section. split; [vm_compute; reflexivity|].
    exists {[ "model" := "7200" ]}. split; vm_compute; reflexivity.
  - intros k' i' Hlt Hk'. apply lookup_lt_Some in Hk'.
    rewrite sorted_length in Hk'. simpl in Hk'. lia.
Defined.

(** ** generate_nodes *)

Section node_builder.
Context `{NodeClass}.
Implicit Types (o : Node_t) (r : device_record).

Lemma has_info_update_node f o k : has_info (update_node f o) k ↔ has_info o k.
Proof. done. Qed.

Lemma has_info_set_info k' v o k :
  has_info (set_info k' v o) k ↔ k = k' ∨ has_info o k.
Proof.
  unfold has_info, set_info. simpl. rewrite lookup_insert.
  case_decide; subst; split; auto.
  - intros [?|?]; [congruence|done].
Qed.

Lemma info_ok_keeps f o : keeps_info f → info_ok o → info_ok (f o).
Proof. intros Hf (? & ? & ?). split_and!; by apply Hf. Qed.

Lemma info_ok_foldl {A} (f : A → Node_t → Node_t) (xs : list A) o :
  (∀ x, keeps_info (f x)) → info_ok o →
  info_ok (foldl (λ o x, f x o) o xs).
Proof.
  intros Hf. revert o. induction xs as [|x xs IH]; intros o Ho; simpl; [done|].
  by apply IH, info_ok_keeps.
Qed.

(** The statements up to the guard on [model]. *)
Lemma start_node_complete hypervisors port_id0 device r :
  well_behaved → complete_record hypervisors r →
  ∃ o, start_node hypervisors port_id0 device r = Ok o ∧
       no_device_info o !! "model" = Some (default "" (dr_model r)) ∧
       no_device_info o !! "type" = dr_type r ∧
       info_ok o.
Proof.
  intros Hwb ((hv & Hhv & Hlt) & [i Hi] & [x Hx] & [y Hy] & [t Ht]).
  unfold start_node. rewrite Hhv, Hi, Hx, Hy, Ht. simpl.
  destruct (lookup_lt_is_Some_2 hypervisors hv Hlt) as [h Hh].
  unfold list_getitem. rewrite Hh. simpl.
  eexists. split; [done|].
  pose proof (init_chassis Hwb h port_id0) as [c Hc].
  unfold info_ok, has_info.
  destruct (dr_model r) as [m|]; simpl;
    rewrite !lookup_insert_eq;
    rewrite !(lookup_insert_ne _ "model" "type") by done;
    rewrite !lookup_insert_eq;
    rewrite !(lookup_insert_ne _ _ "chassis") by done;
    rewrite Hc; by split_and!.
Qed.

(** The statement [tmp_node.device_info['type'] = devices[device]['type']]
    raises on a record without that key, whatever the class [Node] does. *)
Lemma start_node_missing_type hypervisors port_id0 device r :
  (∃ hv, dr_hv_id r = Some hv ∧ (hv < length hypervisors)%nat) →
  is_Some (dr_node_id r) → is_Some (dr_x r) → is_Some (dr_y r) →
  dr_type r = None →
  start_node hypervisors port_id0 device r = Raise (KeyError "type").
Proof.
  intros (hv & Hhv & Hlt) [i Hi] [x Hx] [y Hy] Ht.
  unfold start_node. rewrite Hhv, Hi, Hx, Hy, Ht. simpl.
  destruct (lookup_lt_is_Some_2 hypervisors hv Hlt) as [h Hh].
  unfold list_getitem. by rewrite Hh.
Qed.

Lemma add_ports_info_ok o : well_behaved → info_ok o → info_ok (add_ports o).
Proof.
  intros Hwb Ho. unfold add_ports.
  apply (info_ok_foldl
           (λ item o, if startswith "slot" item then add_slot_ports item o
                      else if startswith "wic" item then add_wic_ports item o
                      else o)); [|done].
  intros item o' k Hk.
  destruct (startswith "slot" item); [by apply Hwb|].
  destruct Hwb. destruct (startswith "wic" item); [|done].
  by apply keeps_add_wic_ports0.
Qed.

Lemma build_router_total r o :
  well_behaved → is_Some (dr_node_id r) → info_ok o →
  ∃ o', build_router r o = Ok o'.
Proof.
  intros Hwb [i Hi] Ho. unfold build_router. rewrite Hi. simpl.
  set (o1 := add_ports _).
  assert (info_ok o1) as (_ & [m Hm] & [c Hc]).
  { apply add_ports_info_ok; [done|]. apply info_ok_keeps; [apply Hwb|].
    destruct Ho as (? & ? & ?). split_and!; apply has_info_update_node;
      by apply Hwb. }
  unfold getitem. rewrite Hm. simpl.
  case_decide; simpl; [by eexists|].
  case_decide; simpl; [|by eexists].
  rewrite Hc. simpl. case_decide; by eexists.
Qed.

Lemma finish_node_total r self o :
  well_behaved → is_Some (dr_node_id r) → info_ok o →
  ∃ n self', finish_node r self o = Ok (n, self').
Proof.
  intros Hwb Hr Ho. unfold finish_node.
  set (o1 := foldl _ _ _).
  assert (info_ok o1) as Ho1.
  { apply (info_ok_foldl (λ item o, add_device_items item r o));
      [intros item; apply Hwb|].
    apply info_ok_keeps; [apply Hwb|]. apply info_ok_keeps; [apply Hwb|done]. }
  pose proof Ho1 as [[t Ht] _]. unfold getitem. rewrite Ht. simpl.
  destruct (decide (t = "Router")) as [Hrouter|Hother].
  - destruct (build_router_total r o1 Hwb) as [o' ->]; [done..|].
    simpl. by eexists _, _.
  - destruct (decide (t = "Cloud")); simpl; by eexists _, _.
Qed.

Lemma generate_node_total hypervisors device r self :
  well_behaved → complete_record hypervisors r →
  ∃ n self', generate_node hypervisors device r self = Ok (n, self').
Proof.
  intros Hwb Hr. unfold generate_node.
  destruct (start_node_complete hypervisors (self_port_id self) device r Hwb Hr)
    as (o & -> & _ & _ & Ho). simpl.
  apply finish_node_total; [done|apply Hr|done].
Qed.

Lemma generate_nodes_loop_total devices0 hypervisors names nodes self :
  well_behaved →
  (∀ device, device ∈ names →
     ∃ r, devices0 !! device = Some r ∧ complete_record hypervisors r) →
  ∃ nodes' self',
    generate_nodes_loop devices0 hypervisors names nodes self
    = Ok (nodes', self').
Proof.
  intros Hwb. revert nodes self.
  induction names as [|device rest IH]; intros nodes self Hall; simpl.
  { by eexists _, _. }
  destruct (Hall device) as (r & Hr & Hc); [by left|].
  unfold getitem. rewrite Hr. simpl.
  destruct (generate_node_total hypervisors device r self Hwb Hc)
    as (n & self' & ->). simpl.
  apply IH. intros d Hd. apply Hall. by right.
Qed.
End node_builder.

(** C6. Let the constructor of [Node] provide [device_info['chassis']], let
    the methods of [Node] return and delete no key of [device_info], and
    let every device record carry [hv_id] (an index of [hypervisors]),
    [node_id], [x], [y] and [type].  Then [generate_nodes] completes
    whether or not a record has [model], and the node of every record is
    what the rest of the loop body makes of the constructor's object with
    the record's name, id and position and with [device_info['type']] the
    record's type and [device_info['model']] the record's model, the empty
    string when the record has none. *)
Theorem generate_nodes_defaults_model `{NodeClass}
    (devices0 : gmap string device_record) (hypervisors : list hypervisor)
    (self : converter config_item) :
  well_behaved →
  (∀ device r, devices0 !! device = Some r → complete_record hypervisors r) →
  completes devices0 hypervisors self ∧
  ∀ device r self0,
    devices0 !! device = Some r →
    ∃ hv h i x y t,
      dr_hv_id r = Some hv ∧ hypervisors !! hv = Some h ∧
      dr_node_id r = Some i ∧ dr_x r = Some x ∧ dr_y r = Some y ∧
      dr_type r = Some t ∧
      generate_node hypervisors device r self0
      = finish_node r self0
          (started h (self_port_id self0) device i x y t
                   (default "" (dr_model r))) ∧
      ∃ n self1, generate_node hypervisors device r self0 = Ok (n, self1).
Proof.
  intros Hwb Hall. split.
  - apply generate_nodes_loop_total; [done|].
    intros device [r Hr]%elem_of_sorted_keys. exists r. split; [done|].
    by eapply Hall.
  - intros device r self0 Hr.
    pose proof (Hall device r Hr) as Hc.
    destruct (generate_node_total hypervisors device r self0 Hwb Hc)
      as (n & self1 & Hn).
    destruct Hc as ((hv & Hhv & Hlt) & [i Hi] & [x Hx] & [y Hy] & [t Ht]).
    destruct (lookup_lt_is_Some_2 hypervisors hv Hlt) as [h Hh].
    exists hv, h, i, x, y, t. split_and!; try done; [|by eexists _, _].
    unfold generate_node, start_node, list_getitem.
    rewrite Hhv, Hi, Hx, Hy, Ht. simpl. rewrite Hh. simpl.
    by destruct (dr_model r).
Qed.

Lemma plain_node_class_well_behaved : @well_behaved plain_node_class.
Proof.
  split; try (intros; by intros o k Hk).
  intros h p. by eexists.
Qed.

Lemma generate_nodes_defaults_model_witness :
  @completes plain_node_class {[ "R1" := record_no_model ]} ["hv"]
    (Converter 1 [] []) ∧
  @generate_node plain_node_class ["hv"] "R1" record_no_model (Converter 1 [] [])
  = @finish_node plain_node_class record_no_model (Converter 1 [] [])
      (@started plain_node_class "hv" 1 "R1" 1 "10" "20" "Router" "").
Proof.
  destruct (@generate_nodes_defaults_model plain_node_class
              {[ "R1" := record_no_model ]} ["hv"] (Converter 1 [] []))
    as [Hc Hs].
  - exact plain_node_class_well_behaved.
  - intros device r [_ <-]%lookup_singleton_Some.
    split; [exists 0%nat; split; [reflexivity|simpl; lia]|].
    split_and!; by eexists.
  - split; [exact Hc|].
    destruct (Hs "R1" record_no_model (Converter 1 [] []))
      as (hv & h & i & x & y & t & Hhv & Hh & Hi & Hx & Hy & Ht & Hg & _).
    { apply lookup_singleton_eq. }
    injection Hhv as <-. injection Hh as <-. injection Hi as <-.
    injection Hx as <-. injection Hy as <-. injection Ht as <-.
    exact Hg.
Defined.

(** C6, as stated, fails: on a record without the key [type] the
    conversion is aborted by a [KeyError]. *)
Lemma generate_nodes_missing_type_raises :
  @generate_nodes plain_node_class {[ "R1" := record_no_type ]} ["hv"]
    (Converter 1 [] []) = Raise (KeyError "type") ∧
  ¬ @completes plain_node_class {[ "R1" := record_no_type ]} ["hv"]
      (Converter 1 [] []).
Proof.
  assert (@generate_nodes plain_node_class {[ "R1" := record_no_type ]} ["hv"]
            (Converter 1 [] []) = Raise (KeyError "type")) as Hraise
    by (vm_compute; reflexivity).
  split; [done|]. intros (nodes & self' & Hok). by rewrite Hraise in Hok.
Qed.

(** * Further properties of the link resolver *)

(** ** Lookups by name and by id *)

Lemma device_id_from_name_Some device_name nodes i :
  device_id_from_name device_name nodes = Some i →
  ∃ n, n ∈ nodes ∧ node_name n = device_name ∧ node_id n = i.
Proof.
  induction nodes as [|n ns IH]; simpl; [done|].
  case_decide as Hn.
  - intros [= <-]. exists n. split; [by left|done].
  - intros (m & Hm & ?)%IH. exists m. split; [by right|done].
Qed.

Lemma device_id_from_name_None device_name nodes :
  device_id_from_name device_name nodes = None ↔
  ∀ n, n ∈ nodes → node_name n ≠ device_name.
Proof.
  induction nodes as [|n ns IH]; simpl.
  - split; [|done]. by intros _ n ?%elem_of_nil.
  - case_decide as Hn.
    + split; [done|]. intros Hno. by destruct (Hno n); [left|].
    + rewrite IH. split.
      * intros Hno m [->|?]%elem_of_cons; [done|by apply Hno].
      * intros Hno m Hm. apply Hno. by right.
Qed.

(** [device_id_from_name] returns [None] exactly when no node carries the
    name, and otherwise the id of a node that carries it. *)
Theorem device_id_from_name_found device_name nodes :
  (device_id_from_name device_name nodes = None ↔
   ∀ n, n ∈ nodes → node_name n ≠ device_name) ∧
  (∀ i, device_id_from_name device_name nodes = Some i →
        ∃ n, n ∈ nodes ∧ node_name n = device_name ∧ node_id n = i).
Proof.
  split; [apply device_id_from_name_None|apply device_id_from_name_Some].
Qed.

(** With unique node ids, looking a name up and the id back gives the name
    again. *)
Theorem name_id_name_round_trip device_name nodes :
  unique_node_ids nodes →
  (∃ n, n ∈ nodes ∧ node_name n = device_name) →
  get_node_name_from_id (device_id_from_name device_name nodes) nodes
  = device_name.
Proof.
  unfold unique_node_ids. induction nodes as [|n ns IH]; simpl.
  { by intros _ (? & ?%elem_of_nil & _). }
  intros [Hn Hns]%NoDup_cons Hex.
  destruct (decide (device_name = node_name n)) as [Hname|Hname].
  - by rewrite decide_True.
  - destruct Hex as (m & [->|Hm]%elem_of_cons & Hmn); [done|].
    destruct (device_id_from_name device_name ns) as [i|] eqn:Hi.
    + rewrite decide_False.
      * apply IH; [done|]. by exists m.
      * intros [= Heq]. apply Hn.
        apply device_id_from_name_Some in Hi as (k & Hk & _ & <-).
        rewrite Heq. by apply list_elem_of_fmap_2.
    + destruct (device_id_from_name_None device_name ns) as [Hnone _].
      by destruct (Hnone Hi m).
Qed.

Lemma name_id_name_round_trip_witness :
  get_node_name_from_id (device_id_from_name "C2" two_clouds) two_clouds = "C2".
Proof.
  apply name_id_name_round_trip.
  - unfold unique_node_ids. simpl.
    apply NoDup_cons. split; [by intros ?%list_elem_of_singleton|].
    apply NoDup_singleton.
  - eexists. split; [apply list_elem_of_lookup; by exists 1%nat|done].
Defined.

Lemma port_id_by_name_Some destination_port ports q :
  port_id_by_name destination_port ports = Some q →
  ∃ p, p ∈ ports ∧ port_id p = q ∧ port_name p = destination_port.
Proof.
  induction ports as [|p ps IH]; simpl; [done|].
  case_decide as Hp.
  - intros [= <-]. exists p. split; [by left|done].
  - intros (p' & Hp' & ?)%IH. exists p'. split; [by right|done].
Qed.

Lemma port_id_by_name_None destination_port ports :
  port_id_by_name destination_port ports = None ↔
  ∀ p, p ∈ ports → port_name p ≠ destination_port.
Proof.
  induction ports as [|p ps IH]; simpl.
  - split; [|done]. by intros _ p ?%elem_of_nil.
  - case_decide as Hp.
    + split; [done|]. intros Hno. by destruct (Hno p); [left|].
    + rewrite IH. split.
      * intros Hno m [->|?]%elem_of_cons; [done|by apply Hno].
      * intros Hno m Hm. apply Hno. by right.
Qed.

Lemma port_name_id_round_trip_ports name ports default_name :
  NoDup (port_id <$> ports) →
  (∃ p, p ∈ ports ∧ port_name p = name) →
  port_name_by_id (port_id_by_name name ports) ports default_name = name.
Proof.
  induction ports as [|p ps IH]; simpl.
  { by intros _ (? & ?%elem_of_nil & _). }
  intros [Hp Hps]%NoDup_cons Hex.
  destruct (decide (name = port_name p)) as [Hname|Hname].
  - by rewrite decide_True.
  - destruct Hex as (m & [->|Hm]%elem_of_cons & Hmn); [done|].
    destruct (port_id_by_name name ps) as [i|] eqn:Hi.
    + rewrite decide_False.
      * apply IH; [done|]. by exists m.
      * intros [= Heq]. apply Hp.
        apply port_id_by_name_Some in Hi as (k & Hk & <- & _).
        rewrite Heq. by apply list_elem_of_fmap_2.
    + destruct (port_id_by_name_None name ps) as [Hnone _].
      by destruct (Hnone Hi m).
Qed.

Lemma get_port_name_loop_no_node nid pid nodes port_name0 :
  (∀ n, n ∈ nodes → Some (node_id n) ≠ nid) →
  get_port_name_loop nid pid nodes port_name0 = port_name0.
Proof.
  revert port_name0. induction nodes as [|n ns IH]; intros acc Hno; simpl; [done|].
  rewrite decide_False by (apply Hno; by left).
  apply IH. intros m Hm. apply Hno. by right.
Qed.

(** With unique node ids and unique port ids in the node, looking a port
    name up in a node and the port id back gives the name again. *)
Theorem port_name_id_name_round_trip name n nodes :
  unique_node_ids nodes → unique_port_ids n →
  n ∈ nodes →
  (∃ p, p ∈ node_ports n ∧ port_name p = name) →
  get_port_name_from_id (Some (node_id n))
    (port_id_from_name name (Some (node_id n)) nodes) nodes
  = name.
Proof.
  unfold unique_node_ids, unique_port_ids, get_port_name_from_id.
  generalize "" as acc.
  induction nodes as [|m ms IH]; intros acc Hids Hports Hn Hex; simpl.
  { by apply elem_of_nil in Hn. }
  simpl in Hids. apply NoDup_cons in Hids as [Hm Hms].
  apply elem_of_cons in Hn as [<-|Hn].
  - rewrite !decide_True by done.
    rewrite get_port_name_loop_no_node.
    + by apply port_name_id_round_trip_ports.
    + intros k Hk [= Heq]. apply Hm. rewrite <-Heq.
      by apply list_elem_of_fmap_2.
  - assert (node_id m ≠ node_id n) as Hne.
    { intros Heq. apply Hm. rewrite Heq. by apply list_elem_of_fmap_2. }
    rewrite !decide_False by congruence. by apply IH.
Qed.

Lemma port_name_id_name_round_trip_witness :
  get_port_name_from_id (Some 1)
    (port_id_from_name "FastEthernet0/1" (Some 1) one_router) one_router
  = "FastEthernet0/1".
Proof.
  apply (port_name_id_name_round_trip "FastEthernet0/1"
           (Node 1 "Router" "R1" "R1" "0" "0" (Some 1) ∅
              [Port 1 "FastEthernet0/0" None None;
               Port 2 "FastEthernet0/1" None None])).
  - apply NoDup_singleton.
  - unfold unique_port_ids. simpl.
    apply NoDup_cons. split; [by intros ?%list_elem_of_singleton|].
    apply NoDup_singleton.
  - by apply list_elem_of_singleton.
  - eexists. split; [apply list_elem_of_lookup; by exists 1%nat|done].
Defined.

(** ** convert_destination_to_id, further *)

(** With unique node ids the branch for a named device is
    [device_id_from_name] followed by [port_id_from_name]. *)
Theorem convert_destination_to_id_composes destination_node destination_port nodes :
  unique_node_ids nodes →
  destination_node ≠ "NIO" →
  convert_destination_to_id destination_node destination_port nodes
  = (Device (device_id_from_name destination_node nodes)
            ((λ _, destination_node) <$> device_id_from_name destination_node nodes),
     port_id_from_name destination_port
       (device_id_from_name destination_node nodes) nodes).
Proof.
  intros Hids Hnio. unfold convert_destination_to_id.
  rewrite decide_True by done. clear Hnio. unfold unique_node_ids in Hids.
  induction nodes as [|n ns IH]; simpl; [done|].
  simpl in Hids. apply NoDup_cons in Hids as [Hn Hns].
  destruct (decide (destination_node = node_name n)) as [Hname|Hname]; simpl.
  - by rewrite decide_True.
  - rewrite IH by done.
    destruct (device_id_from_name destination_node ns) as [i|] eqn:Hi; simpl.
    + match goal with
      | |- context [if ?d then _ else _] => destruct d as [Heq|Hne]
      end; [|done].
      injection Heq as ->. destruct Hn.
      apply device_id_from_name_Some in Hi as (m & Hm & _ & <-).
      by apply list_elem_of_fmap_2.
    + done.
Qed.

Lemma convert_destination_to_id_composes_witness :
  convert_destination_to_id "C2" "nio_gen_eth:eth1" two_clouds
  = (Device (Some 2) (Some "C2"), Some 2).
Proof.
  rewrite convert_destination_to_id_composes.
  - reflexivity.
  - unfold unique_node_ids. simpl.
    apply NoDup_cons. split; [by intros ?%list_elem_of_singleton|].
    apply NoDup_singleton.
  - discriminate.
Defined.

Lemma cloud_port_sound destination_port n ports d p :
  cloud_port destination_port n ports = (d, p) →
  (d = Device None None ∧ p = None) ∨
  (d = Device (Some (node_id n)) (Some (node_name n)) ∧
   ∃ pt, pt ∈ ports ∧ p = Some (port_id pt) ∧ port_name pt = destination_port).
Proof.
  induction ports as [|pt ps IH]; simpl.
  - intros [= <- <-]. by left.
  - case_decide as Hp.
    + intros [= <- <-]. right. split; [done|]. exists pt. split; [by left|done].
    + intros [?|[? (pt' & ? & ?)]]%IH; [by left|right]. split; [done|].
      exists pt'. split; [by right|done].
Qed.

(** What [convert_destination_to_id] returns is real: a null device id
    comes with a null name and a null port id; a device id is the id of a
    node of the list, which carries the requested name (named branch) or
    is of type Cloud ([NIO] branch), and a port id is the id of a port of
    that node with the requested port name. *)
Theorem convert_destination_to_id_sound destination_node destination_port nodes d p :
  convert_destination_to_id destination_node destination_port nodes = (d, p) →
  (device_id d = None → device_name d = None ∧ p = None) ∧
  (∀ i, device_id d = Some i →
     ∃ n, n ∈ nodes ∧ node_id n = i ∧ device_name d = Some (node_name n) ∧
          (if decide (destination_node ≠ "NIO")
           then node_name n = destination_node
           else node_type n = "Cloud") ∧
          ∀ q, p = Some q →
               ∃ pt, pt ∈ node_ports n ∧ port_id pt = q ∧
                     port_name pt = destination_port).
Proof.
  unfold convert_destination_to_id. case_decide as Hnio.
  - induction nodes as [|n ns IH]; simpl.
    + intros [= <- <-]. by split.
    + case_decide as Hn.
      * intros [= <- <-]. simpl. split; [done|]. intros i [= <-].
        exists n. split; [by left|]. split; [done|]. split; [by rewrite Hn|].
        split; [done|]. intros q Hq. by apply port_id_by_name_Some.
      * intros [Hnone Hsome]%IH. split; [done|]. intros i Hi.
        destruct (Hsome i Hi) as (m & Hm & Hrest). exists m.
        split; [by right|done].
  - induction nodes as [|n ns IH]; simpl.
    + intros [= <- <-]. by split.
    + case_decide as Hn.
      * intros [[-> ->]|[-> (pt & Hpt & -> & Hname)]]%cloud_port_sound; simpl.
        { by split. }
        split; [done|]. intros i [= <-]. exists n. split; [by left|].
        split_and!; try done. intros q [= <-]. by exists pt.
      * intros [Hnone Hsome]%IH. split; [done|]. intros i Hi.
        destruct (Hsome i Hi) as (m & Hm & Hrest). exists m.
        split; [by right|done].
Qed.

Lemma convert_destination_to_id_sound_witness :
  ∃ n, n ∈ two_clouds ∧ node_id n = 1 ∧ node_type n = "Cloud".
Proof.
  destruct (convert_destination_to_id_sound "NIO" "nio_gen_eth:eth0" two_clouds
              (Device (Some 1) (Some "C1")) (Some 1) eq_refl) as [_ Hs].
  destruct (Hs 1 eq_refl) as (n & Hn & Hid & _ & Hty & _).
  exists n. split; [exact Hn|]. split; [exact Hid|exact Hty].
Defined.

Lemma convert_cloud_no_cloud destination_port nodes :
  Forall (λ m, node_type m ≠ "Cloud") nodes →
  convert_cloud destination_port nodes = (Device None None, None).
Proof.
  induction 1 as [|m ms Hm _ IH]; simpl; [done|]. by rewrite decide_False.
Qed.

(** The [NIO] branch looks at the first node of type Cloud only: the nodes
    listed after it never change the result, and without a Cloud node the
    result is null. *)
Theorem convert_destination_to_id_first_cloud destination_port pre n post :
  Forall (λ m, node_type m ≠ "Cloud") pre →
  node_type n = "Cloud" →
  convert_destination_to_id "NIO" destination_port (pre ++ n :: post)
  = convert_destination_to_id "NIO" destination_port [n] ∧
  convert_destination_to_id "NIO" destination_port pre = (Device None None, None).
Proof.
  intros Hpre Hn. split.
  - rewrite (convert_cloud_first_only _ pre n post) by done.
    by rewrite (convert_cloud_first_only _ [] n []) by done.
  - unfold convert_destination_to_id. rewrite decide_False by (intros Hne; by apply Hne).
    by apply convert_cloud_no_cloud.
Qed.

Lemma convert_destination_to_id_first_cloud_witness :
  convert_destination_to_id "NIO" "nio_gen_eth:eth1" two_clouds
  = convert_destination_to_id "NIO" "nio_gen_eth:eth1"
      [Node 1 "Cloud" "C1" "C1" "0" "0" None ∅ [Port 1 "nio_gen_eth:eth0" None None]].
Proof.
  apply (convert_destination_to_id_first_cloud "nio_gen_eth:eth1" []
           (Node 1 "Cloud" "C1" "C1" "0" "0" None ∅ [Port 1 "nio_gen_eth:eth0" None None])
           [Node 2 "Cloud" "C2" "C2" "0" "0" None ∅ [Port 2 "nio_gen_eth:eth1" None None]]).
  - constructor.
  - reflexivity.
Defined.

(** ** add_node_connections, further *)

Lemma node_frame_same_shape lk n n' : node_frame lk n n' → same_node_shape n n'.
Proof.
  intros (? & ? & ? & ? & ? & ? & ? & ? & Hps). split_and!; try done.
  eapply Forall2_impl; [done|]. by intros p p' (? & ? & _).
Qed.

Lemma port_name_by_id_shape pid ports ports' port_name0 :
  Forall2 same_port_shape ports ports' →
  port_name_by_id pid ports' port_name0 = port_name_by_id pid ports port_name0.
Proof.
  induction 1 as [|p p' ps ps' [Hid Hname] _ IH]; simpl; [done|].
  by rewrite Hid, Hname, IH.
Qed.

Lemma get_node_name_from_id_shape nid nodes nodes' :
  Forall2 same_node_shape nodes nodes' →
  get_node_name_from_id nid nodes' = get_node_name_from_id nid nodes.
Proof.
  induction 1 as [|n n' ns ns' (Hid & _ & Hname & _) _ IH]; simpl; [done|].
  by rewrite Hid, Hname, IH.
Qed.

Lemma get_port_name_loop_shape nid pid nodes nodes' port_name0 :
  Forall2 same_node_shape nodes nodes' →
  get_port_name_loop nid pid nodes' port_name0
  = get_port_name_loop nid pid nodes port_name0.
Proof.
  intros Hall. revert port_name0.
  induction Hall as [|n n' ns ns' Hn _ IH]; intros acc; simpl; [done|].
  destruct Hn as (Hid & _ & _ & _ & _ & _ & _ & _ & Hps).
  by rewrite Hid, IH, (port_name_by_id_shape _ _ _ _ Hps).
Qed.

Lemma connected_to_shape nid pid nodes nodes' :
  Forall2 same_node_shape nodes nodes' →
  connected_to nid pid nodes' = connected_to nid pid nodes.
Proof.
  intros Hall. unfold connected_to, get_port_name_from_id.
  by rewrite (get_node_name_from_id_shape _ _ _ Hall),
             (get_port_name_loop_shape _ _ _ _ _ Hall).
Qed.

Lemma annotate_ports_idem pid lid desc ports ports' :
  annotate_ports pid lid desc ports = Ok ports' →
  annotate_ports pid lid desc ports' = Ok ports'.
Proof.
  revert ports'. induction ports as [|p ps IH]; simpl; intros ports'.
  - by intros [= <-].
  - case_decide as Hp.
    + destruct lid as [i|]; [|done]. intros [= <-]. simpl.
      by rewrite decide_True.
    + intros (ps' & Hps & [= <-])%bind_Ok. simpl.
      rewrite decide_False by done. by rewrite (IH _ Hps).
Qed.

Lemma connect_nodes_idem lk src_desc dest_desc nodes nodes' :
  connect_nodes lk src_desc dest_desc nodes = Ok nodes' →
  connect_nodes lk src_desc dest_desc nodes' = Ok nodes'.
Proof.
  revert nodes'. induction nodes as [|n ns IH]; simpl; intros nodes'.
  { by intros [= <-]. }
  intros (n' & Hn & (ns' & Hns & [= <-])%bind_Ok)%bind_Ok. simpl.
  rewrite (IH _ Hns).
  destruct (decide (node_id n = source_node_id lk)) as [Hsrc|Hsrc];
    [|destruct (decide (Some (node_id n) = destination_node_id lk)) as [Hdst|Hdst]].
  - apply bind_Ok in Hn as (ps & Hps & [= <-]). simpl.
    rewrite decide_True by done. by rewrite (annotate_ports_idem _ _ _ _ _ Hps).
  - apply bind_Ok in Hn as (ps & Hps & [= <-]). simpl.
    rewrite decide_False, decide_True by done.
    by rewrite (annotate_ports_idem _ _ _ _ _ Hps).
  - injection Hn as <-. by rewrite !decide_False by done.
Qed.

(** [add_node_connections] is idempotent: applied to its own result with
    the same link it returns that result again. *)
Theorem add_node_connections_idempotent lk nodes nodes' :
  add_node_connections lk nodes = Ok nodes' →
  add_node_connections lk nodes' = Ok nodes'.
Proof.
  unfold add_node_connections. intros Hc.
  assert (Forall2 same_node_shape nodes nodes') as Hshape.
  { eapply Forall2_impl; [by eapply connect_nodes_frame|].
    intros n n'. apply node_frame_same_shape. }
  rewrite !(connected_to_shape _ _ nodes nodes' Hshape).
  by apply (connect_nodes_idem _ _ _ nodes).
Qed.

Lemma add_node_connections_idempotent_witness :
  ∃ nodes', add_node_connections self_link one_router = Ok nodes' ∧
            add_node_connections self_link nodes' = Ok nodes'.
Proof.
  eexists. split; [reflexivity|].
  apply (add_node_connections_idempotent self_link one_router). reflexivity.
Defined.

Lemma annotate_ports_first pid i desc ports j :
  first_port_with pid ports j →
  ∃ p, ports !! j = Some p ∧
       annotate_ports pid (Some i) desc ports
       = Ok (<[j := annotate p i desc]> ports).
Proof.
  revert j. induction ports as [|q qs IH]; intros j [(p & Hj & Hp) Hfirst].
  { done. }
  destruct j as [|j]; simpl in *.
  - injection Hj as ->. exists p. by rewrite decide_True.
  - rewrite decide_False by (by apply (Hfirst 0%nat); [lia|]).
    destruct (IH j) as (p' & Hp' & ->).
    { split; [by exists p|]. intros j' p' Hlt. apply (Hfirst (S j')). lia. }
    by exists p'.
Qed.

Lemma connect_nodes_lookup lk src_desc dest_desc nodes nodes' k n :
  connect_nodes lk src_desc dest_desc nodes = Ok nodes' →
  nodes !! k = Some n →
  ∃ n', nodes' !! k = Some n' ∧
        connect_nodes lk src_desc dest_desc [n] = Ok [n'].
Proof.
  revert nodes' k. induction nodes as [|m ms IH]; intros nodes' k; simpl; [done|].
  intros (m' & Hm & (ms' & Hms & [= <-])%bind_Ok)%bind_Ok Hk.
  destruct k as [|k]; simpl in *.
  - injection Hk as ->. exists m'. split; [done|]. by rewrite Hm.
  - by apply IH.
Qed.

(** With its [id] set, a link is written to its endpoints: on a node with
    the source node id the first port with the source port id gets the
    link id and the description of the destination; on a node with the
    destination node id, other than the source node, the first port with
    the destination port id gets the link id and the description of the
    source. *)
Theorem add_node_connections_annotates lk nodes nodes' i k n j :
  add_node_connections lk nodes = Ok nodes' →
  link_id lk = Some i →
  nodes !! k = Some n →
  (node_id n = source_node_id lk →
   first_port_with (Some (source_port_id lk)) (node_ports n) j →
   ∃ p, node_ports n !! j = Some p ∧
        node_ports <$> nodes' !! k
        = Some (<[j := annotate p i
                         (connected_to (destination_node_id lk)
                            (destination_port_id lk) nodes)]> (node_ports n))) ∧
  (node_id n ≠ source_node_id lk →
   Some (node_id n) = destination_node_id lk →
   first_port_with (destination_port_id lk) (node_ports n) j →
   ∃ p, node_ports n !! j = Some p ∧
        node_ports <$> nodes' !! k
        = Some (<[j := annotate p i
                         (connected_to (Some (source_node_id lk))
                            (Some (source_port_id lk)) nodes)]> (node_ports n))).
Proof.
  unfold add_node_connections. intros Hc Hid Hk.
  destruct (connect_nodes_lookup _ _ _ _ _ _ _ Hc Hk) as (n' & Hn' & Hone).
  rewrite Hn'. simpl in *. rewrite Hid in Hone. split.
  - intros Hsrc Hfirst. rewrite decide_True in Hone by done.
    destruct (annotate_ports_first _ i
                (connected_to (destination_node_id lk) (destination_port_id lk) nodes)
                _ _ Hfirst) as (p & Hp & Hann).
    rewrite Hann in Hone. injection Hone as <-. by exists p.
  - intros Hsrc Hdst Hfirst. rewrite decide_False, decide_True in Hone by done.
    destruct (annotate_ports_first _ i
                (connected_to (Some (source_node_id lk)) (Some (source_port_id lk)) nodes)
                _ _ Hfirst) as (p & Hp & Hann).
    rewrite Hann in Hone. injection Hone as <-. by exists p.
Qed.

Lemma add_node_connections_annotates_witness :
  ∃ nodes' p,
    add_node_connections self_link one_router = Ok nodes' ∧
    node_ports <$> nodes' !! 0%nat
    = Some (<[0%nat := annotate p 1 (connected_to (Some 1) (Some 2) one_router)]>
              [Port 1 "FastEthernet0/0" None None;
               Port 2 "FastEthernet0/1" None None]).
Proof.
  eexists.
  destruct (add_node_connections_annotates self_link one_router _ 1 0%nat
              (Node 1 "Router" "R1" "R1" "0" "0" (Some 1) ∅
                 [Port 1 "FastEthernet0/0" None None;
                  Port 2 "FastEthernet0/1" None None]) 0%nat eq_refl eq_refl eq_refl)
    as [Hsrc _].
  destruct Hsrc as (p & _ & Hp).
  - reflexivity.
  - split; [by eexists|]. intros j' p' Hlt. lia.
  - exists p. split; [reflexivity|exact Hp].
Defined.

Lemma annotate_ports_no_match pid lid desc ports :
  (∀ p, p ∈ ports → Some (port_id p) ≠ pid) →
  annotate_ports pid lid desc ports = Ok ports.
Proof.
  induction ports as [|p ps IH]; intros Hno; simpl; [done|].
  rewrite decide_False by (apply Hno; by left).
  rewrite IH; [done|]. intros q Hq. apply Hno. by right.
Qed.

Lemma annotate_ports_no_id pid desc ports :
  (∃ p, p ∈ ports ∧ Some (port_id p) = pid) →
  annotate_ports pid None desc ports = Raise (KeyError "id").
Proof.
  induction ports as [|p ps IH]; simpl.
  { by intros (? & ?%elem_of_nil & _). }
  intros (q & Hq & Hpid). case_decide as Hp; [done|].
  apply elem_of_cons in Hq as [->|Hq]; [done|].
  rewrite IH; [done|]. by exists q.
Qed.

Lemma annotate_ports_None_cases pid desc ports :
  ((∃ p, p ∈ ports ∧ Some (port_id p) = pid) ∧
   annotate_ports pid None desc ports = Raise (KeyError "id")) ∨
  ((∀ p, p ∈ ports → Some (port_id p) ≠ pid) ∧
   annotate_ports pid None desc ports = Ok ports).
Proof.
  destruct (decide (Exists (λ p, Some (port_id p) = pid) ports)) as [Hex|Hnex].
  - left. apply Exists_exists in Hex. split; [done|].
    by apply annotate_ports_no_id.
  - right. apply not_Exists_Forall in Hnex; [|apply _].
    rewrite Forall_forall in Hnex. split; [done|].
    by apply annotate_ports_no_match.
Qed.

(** A link without the key [id] is an error only if it has something to
    annotate: [KeyError] is raised when some port is an endpoint of the
    link, and otherwise the nodes are returned as they are. *)
Theorem add_node_connections_without_id lk nodes :
  link_id lk = None →
  (endpoint_present lk nodes →
   add_node_connections lk nodes = Raise (KeyError "id")) ∧
  (¬ endpoint_present lk nodes → add_node_connections lk nodes = Ok nodes).
Proof.
  intros Hid. unfold add_node_connections.
  generalize (connected_to (destination_node_id lk) (destination_port_id lk) nodes)
             (connected_to (Some (source_node_id lk)) (Some (source_port_id lk)) nodes).
  intros src_desc dest_desc. unfold endpoint_present.
  induction nodes as [|n ns [IHyes IHno]]; simpl.
  { split; [by intros (? & ? & ?%elem_of_nil & _)|done]. }
  rewrite Hid.
  destruct (decide (node_id n = source_node_id lk)) as [Hsrc|Hsrc];
    [|destruct (decide (Some (node_id n) = destination_node_id lk)) as [Hdst|Hdst]].
  - destruct (annotate_ports_None_cases (Some (source_port_id lk)) src_desc
                (node_ports n)) as [[Hex ->]|[Hnex ->]].
    + simpl. split; [done|].
      intros Hno. destruct Hno. destruct Hex as (p & Hp & [= Hpid]).
      exists n, p. split; [by left|]. split; [done|]. by left.
    + simpl. destruct n; simpl in *. split.
      * intros (m & p & [->|Hm]%elem_of_cons & Hp & Hend).
        { destruct Hend as [[_ Hpid]|[? _]]; [|done]. simpl in *.
          destruct (Hnex p Hp). by rewrite Hpid. }
        rewrite IHyes; [done|]. by exists m, p.
      * intros Hno. rewrite IHno; [done|].
        intros (m & p & Hm & Hrest). apply Hno. exists m, p.
        split; [by right|done].
  - destruct (annotate_ports_None_cases (destination_port_id lk) dest_desc
                (node_ports n)) as [[Hex ->]|[Hnex ->]].
    + simpl. split; [done|].
      intros Hno. destruct Hno. destruct Hex as (p & Hp & Hpid).
      exists n, p. split; [by left|]. split; [done|]. by right.
    + simpl. destruct n; simpl in *. split.
      * intros (m & p & [->|Hm]%elem_of_cons & Hp & Hend).
        { destruct Hend as [[? _]|(_ & _ & Hpid)]; [done|]. simpl in *.
          by destruct (Hnex p Hp). }
        rewrite IHyes; [done|]. by exists m, p.
      * intros Hno. rewrite IHno; [done|].
        intros (m & p & Hm & Hrest). apply Hno. exists m, p.
        split; [by right|done].
  - simpl. split.
    + intros (m & p & [->|Hm]%elem_of_cons & Hp & Hend).
      { by destruct Hend as [[? _]|(_ & ? & _)]. }
      rewrite IHyes; [done|]. by exists m, p.
    + intros Hno. rewrite IHno; [done|].
      intros (m & p & Hm & Hrest). apply Hno. exists m, p.
      split; [by right|done].
Qed.

Lemma add_node_connections_without_id_witness :
  add_node_connections (Link "loop" (Some 1) (Some 2) 1 1 None) one_router
  = Raise (KeyError "id").
Proof.
  apply add_node_connections_without_id; [reflexivity|].
  eexists _, (Port 1 "FastEthernet0/0" None None).
  split; [by apply list_elem_of_singleton|].
  split; [by left|]. by left.
Defined.

(** ** generate_links, further *)

Lemma same_but_id_refl lk : same_but_id lk lk.
Proof. by split_and!. Qed.

Lemma same_but_id_trans a b c : same_but_id a b → same_but_id b c → same_but_id a c.
Proof.
  intros (?&?&?&?&?) (?&?&?&?&?). split_and!; congruence.
Qed.

Lemma Forall2_same_but_id_refl (heap : list link) : Forall2 same_but_id heap heap.
Proof. apply Forall_Forall2_diag, Forall_forall. intros lk _. apply same_but_id_refl. Qed.

Lemma same_port_shape_trans p q r :
  same_port_shape p q → same_port_shape q r → same_port_shape p r.
Proof. intros [??] [??]. split; congruence. Qed.

Lemma same_node_shape_trans n m k :
  same_node_shape n m → same_node_shape m k → same_node_shape n k.
Proof.
  intros (?&?&?&?&?&?&?&?&Hp1) (?&?&?&?&?&?&?&?&Hp2).
  split_and!; try congruence.
  eapply Forall2_trans; [|done..]. apply same_port_shape_trans.
Qed.

Lemma Forall2_same_node_shape_refl nodes : Forall2 same_node_shape nodes nodes.
Proof.
  apply Forall_Forall2_diag, Forall_forall. intros n _. split_and!; try done.
  apply Forall_Forall2_diag, Forall_forall. by intros p _.
Qed.

Lemma heap_insert_same_but_id (heap : list link) r q :
  Forall2 same_but_id heap (<[r := set_link_id (heap !!! r) q]> heap).
Proof.
  destruct (decide (r < length heap)%nat) as [Hlt|Hge].
  - rewrite <-(list_insert_id heap r (heap !!! r)) at 1
      by (by apply list_lookup_lookup_total_lt).
    apply Forall2_insert; [apply Forall2_same_but_id_refl|by split_and!].
  - rewrite list_insert_ge by lia. apply Forall2_same_but_id_refl.
Qed.

Lemma number_links_structure n i s s' :
  number_links n i s = Ok s' →
  Forall2 same_but_id (ls_heap s) (ls_heap s') ∧
  ls_links s' `sublist_of` ls_links s ∧
  Forall2 same_node_shape (ls_nodes s) (ls_nodes s').
Proof.
  revert i s. induction n as [|n IH]; intros i s; simpl.
  { intros [= <-]. split; [apply Forall2_same_but_id_refl|].
    split; [done|apply Forall2_same_node_shape_refl]. }
  destruct (ls_links s !! i) as [r|].
  2:{ intros [= <-]. split; [apply Forall2_same_but_id_refl|].
      split; [done|apply Forall2_same_node_shape_refl]. }
  intros (nodes' & Hnodes & (Hheap & Hlinks & Hshape)%IH)%bind_Ok.
  simpl in *. split; [|split].
  - eapply Forall2_trans; [apply same_but_id_trans| |done].
    apply heap_insert_same_but_id.
  - etrans; [done|]. apply remove_duplicate_sublist.
  - eapply Forall2_trans; [apply same_node_shape_trans| |done].
    eapply Forall2_impl; [by eapply connect_nodes_frame|].
    intros m m'. apply node_frame_same_shape.
Qed.

Lemma deref_seq (heap : list link) : deref heap (seq 0 (length heap)) = heap.
Proof.
  apply list_eq. intros k. unfold deref. rewrite list_lookup_fmap.
  destruct (decide (k < length heap)%nat) as [Hlt|Hge].
  - rewrite lookup_seq_lt by done. simpl.
    by rewrite list_lookup_lookup_total_lt.
  - rewrite lookup_seq_ge, lookup_ge_None_2 by lia. done.
Qed.

Lemma resolve_links_length `{Adapters} nodes cs links :
  resolve_links nodes cs = Ok links → length links = length cs.
Proof.
  revert links. induction cs as [|c cs IH]; simpl; intros links.
  - by intros [= <-].
  - intros (lk & _ & (lks & Hlks & [= <-])%bind_Ok)%bind_Ok. simpl.
    by rewrite (IH _ Hlks).
Qed.

Lemma generate_links_inv `{Adapters} self_links0 nodes links nodes' :
  generate_links self_links0 nodes = Ok (links, nodes') →
  ∃ resolved s,
    resolve_links nodes self_links0 = Ok resolved ∧
    number_links (length resolved) 0
      (LoopState resolved (seq 0 (length resolved)) 1 nodes) = Ok s ∧
    links = deref (ls_heap s) (ls_links s) ∧ nodes' = ls_nodes s.
Proof.
  unfold generate_links.
  intros (resolved & Hres & (s & Hs & [= <- <-])%bind_Ok)%bind_Ok.
  by exists resolved, s.
Qed.

(** [generate_links] invents and reorders nothing: the returned links are
    a sub-sequence, in the original order, of the links resolved from the
    candidates, changed at most in the key [id]; there are never more
    links than candidates. *)
Theorem generate_links_subsequence `{Adapters} self_links0 nodes links nodes' :
  generate_links self_links0 nodes = Ok (links, nodes') →
  ∃ resolved kept,
    resolve_links nodes self_links0 = Ok resolved ∧
    kept `sublist_of` resolved ∧
    Forall2 same_but_id kept links ∧
    (length links ≤ length self_links0)%nat.
Proof.
  intros (resolved & s & Hres & Hs & -> & _)%generate_links_inv.
  apply number_links_structure in Hs as (Hheap & Hlinks & _). simpl in *.
  exists resolved, (deref resolved (ls_links s)).
  assert (deref resolved (ls_links s) `sublist_of` resolved) as Hsub.
  { rewrite <-(deref_seq resolved) at 2. unfold deref. by apply fmap_sublist. }
  split; [done|]. split; [done|]. split.
  - unfold deref. apply Forall2_fmap, Forall_Forall2_diag, Forall_forall.
    intros r Hr. simpl.
    assert (r < length resolved)%nat as Hlt.
    { eapply elem_of_sublist in Hr; [|done]. apply elem_of_seq in Hr. lia. }
    destruct (lookup_lt_is_Some_2 resolved r Hlt) as [a Ha].
    destruct (Forall2_lookup_l _ _ _ _ _ Hheap Ha) as (b & Hb & Hab).
    by rewrite (list_lookup_total_correct _ _ _ Ha),
               (list_lookup_total_correct _ _ _ Hb).
  - rewrite <-(resolve_links_length _ _ _ Hres).
    apply sublist_length in Hsub. unfold deref in *.
    by rewrite length_fmap in *.
Qed.

Lemma generate_links_subsequence_witness :
  ∃ links nodes',
    @generate_links scenario_adapters three_router_links three_routers
    = Ok (links, nodes') ∧ (length links ≤ 3)%nat.
Proof.
  destruct (@generate_links scenario_adapters three_router_links three_routers)
    as [[links nodes']|e] eqn:Hg; [|by vm_compute in Hg].
  exists links, nodes'. split; [reflexivity|].
  destruct (@generate_links_subsequence scenario_adapters _ _ _ _ Hg)
    as (_ & _ & _ & _ & _ & Hlen).
  exact Hlen.
Defined.

(** [generate_links] leaves the node list in shape: the same nodes with
    the same fields and the same ports by id and name; only [link_id] and
    [description] of ports may differ. *)
Theorem generate_links_keeps_node_shape `{Adapters} self_links0 nodes links nodes' :
  generate_links self_links0 nodes = Ok (links, nodes') →
  Forall2 same_node_shape nodes nodes'.
Proof.
  intros (resolved & s & Hres & Hs & _ & ->)%generate_links_inv.
  by apply number_links_structure in Hs as (_ & _ & Hshape).
Qed.

Lemma generate_links_keeps_node_shape_witness :
  ∃ links nodes',
    @generate_links scenario_adapters three_router_links three_routers
    = Ok (links, nodes') ∧ Forall2 same_node_shape three_routers nodes'.
Proof.
  destruct (@generate_links scenario_adapters three_router_links three_routers)
    as [[links nodes']|e] eqn:Hg; [|by vm_compute in Hg].
  exists links, nodes'. split; [reflexivity|].
  exact (@generate_links_keeps_node_shape scenario_adapters _ _ _ _ Hg).
Defined.

(** *** The ids grow along the list *)

Lemma sublist_drop_S {A} (l : list A) k : drop (S k) l `sublist_of` drop k l.
Proof.
  revert k. induction l as [|x l IH]; intros k; [by destruct k|].
  destruct k as [|k]; simpl.
  - rewrite drop_0. by apply sublist_cons.
  - apply IH.
Qed.

Lemma sublist_drop_mono {A} (l1 l2 : list A) k :
  l1 `sublist_of` l2 → drop k l1 `sublist_of` drop k l2.
Proof.
  intros Hsub. revert k.
  induction Hsub as [|x l1 l2 Hsub IH|x l1 l2 Hsub IH]; intros k.
  - by destruct k.
  - destruct k as [|k]; simpl; [by apply sublist_skip|apply IH].
  - destruct k as [|k]; simpl.
    + rewrite drop_0. by apply sublist_cons.
    + etrans; [apply sublist_drop_S|apply IH].
Qed.

Lemma StronglySorted_lt_seq j n : StronglySorted lt (seq j n).
Proof.
  revert j. induction n as [|n IH]; intros j; simpl; constructor; [apply IH|].
  apply Forall_forall. intros k Hk%elem_of_seq. lia.
Qed.

Lemma StronglySorted_lt_after (l : list nat) i r r' :
  StronglySorted lt l → l !! i = Some r → r' ∈ drop (S i) l → (r < r')%nat.
Proof.
  intros Hs. revert i. induction Hs as [|x l _ IH Hall]; intros i; [done|].
  destruct i as [|i]; simpl.
  - intros [= ->]. rewrite drop_0. rewrite Forall_forall in Hall. apply Hall.
  - apply IH.
Qed.

Lemma loop_inv_start N (resolved : list link) :
  length resolved = N → Forall (λ lk, link_id lk = None) resolved →
  loop_inv N 0 (LoopState resolved (seq 0 N) 1 []).
Proof.
  intros Hlen Hnone. rewrite Forall_forall in Hnone.
  split; simpl; try done.
  - intros r lk q Hr Hq. apply list_elem_of_lookup_2, Hnone in Hr. congruence.
  - intros r lk q r' Hr Hq. apply list_elem_of_lookup_2, Hnone in Hr. congruence.
  - intros r1 r2 lk1 lk2 q1 q2 _ Hr _ Hq.
    apply list_elem_of_lookup_2, Hnone in Hr. congruence.
Qed.

Lemma loop_inv_nodes N i heap links q nodes nodes' :
  loop_inv N i (LoopState heap links q nodes) →
  loop_inv N i (LoopState heap links q nodes').
Proof. intros [??????]. by split. Qed.

Lemma loop_inv_step N i s r links' :
  loop_inv N i s →
  ls_links s !! i = Some r →
  links' `sublist_of` ls_links s →
  loop_inv N (S i)
    (LoopState (<[r := set_link_id (ls_heap s !!! r) (ls_link_id s)]> (ls_heap s))
               links' (ls_link_id s + 1) (ls_nodes s)).
Proof.
  intros [Hlen Hlinks Hnext Hbound Hbehind Horder] Hr Hsub.
  assert (StronglySorted lt (ls_links s)) as Hsorted.
  { eapply StronglySorted_sublist; [done|apply StronglySorted_lt_seq]. }
  assert (∀ r', r' ∈ drop (S i) links' → (r < r')%nat) as Hafter.
  { intros r' Hr'. eapply StronglySorted_lt_after; [done..|].
    eapply elem_of_sublist; [done|]. by apply sublist_drop_mono. }
  assert (r ∈ drop i (ls_links s)) as Hri.
  { apply list_elem_of_lookup. exists 0%nat.
    by rewrite lookup_drop, Nat.add_0_r. }
  split; simpl.
  - by rewrite length_insert.
  - by etrans.
  - lia.
  - intros r1 lk q [(<- & <- & _)|[_ Hold]]%list_lookup_insert_Some Hq.
    + simpl in Hq. injection Hq as <-. lia.
    + specialize (Hbound _ _ _ Hold Hq). lia.
  - intros r1 lk q r' [(<- & <- & _)|[_ Hold]]%list_lookup_insert_Some Hq Hr'.
    + by apply Hafter.
    + specialize (Hbehind _ _ _ _ Hold Hq Hri). specialize (Hafter _ Hr'). lia.
  - intros r1 r2 lk1 lk2 q1 q2 Hlt
      [(<- & <- & _)|[Hne1 Hold1]]%list_lookup_insert_Some
      [(<- & <- & _)|[Hne2 Hold2]]%list_lookup_insert_Some Hq1 Hq2.
    + lia.
    + specialize (Hbehind _ _ _ _ Hold2 Hq2 Hri). lia.
    + simpl in Hq2. injection Hq2 as <-.
      specialize (Hbound _ _ _ Hold1 Hq1). lia.
    + by eapply Horder.
Qed.

Lemma number_links_inv N n i s s' :
  loop_inv N i s → number_links n i s = Ok s' →
  (∃ i', loop_inv N i' s') ∧ (ls_link_id s' ≤ ls_link_id s + Z.of_nat n)%Z.
Proof.
  revert i s. induction n as [|n IH]; intros i s Hinv; simpl.
  { intros [= <-]. split; [by exists i|lia]. }
  destruct (ls_links s !! i) as [r|] eqn:Hr.
  2:{ intros [= <-]. split; [by exists i|lia]. }
  intros (nodes' & _ & Hrec)%bind_Ok.
  eapply IH in Hrec as [Hex Hle].
  - split; [done|]. simpl in Hle. lia.
  - eapply loop_inv_nodes, (loop_inv_step N i s r); [done..|].
    apply remove_duplicate_sublist.
Qed.

Lemma resolve_links_no_id `{Adapters} nodes cs links :
  resolve_links nodes cs = Ok links → Forall (λ lk, link_id lk = None) links.
Proof.
  revert links. induction cs as [|c cs IH]; simpl; intros links.
  - intros [= <-]. constructor.
  - intros (lk & Hlk & (lks & Hlks & [= <-])%bind_Ok)%bind_Ok.
    constructor; [|by apply IH].
    unfold resolve_link in Hlk.
    apply bind_Ok in Hlk as (dest_port & _ & Hlk).
    destruct (convert_destination_to_id _ _ _). by injection Hlk as <-.
Qed.

(** The ids [generate_links] hands out lie between 1 and the number of
    candidates and grow strictly along the returned list: of two returned
    links that carry an id, the earlier one carries the smaller id, so no
    id occurs twice. *)
Theorem generate_links_ids_increase `{Adapters} self_links0 nodes links nodes' :
  generate_links self_links0 nodes = Ok (links, nodes') →
  (∀ k lk q, links !! k = Some lk → link_id lk = Some q →
             (1 ≤ q ≤ Z.of_nat (length self_links0))%Z) ∧
  (∀ k1 k2 lk1 lk2 q1 q2,
     (k1 < k2)%nat → links !! k1 = Some lk1 → links !! k2 = Some lk2 →
     link_id lk1 = Some q1 → link_id lk2 = Some q2 → (q1 < q2)%Z).
Proof.
  intros (resolved & s & Hres & Hs & -> & _)%generate_links_inv.
  assert (loop_inv (length resolved) 0
            (LoopState resolved (seq 0 (length resolved)) 1 nodes)) as Hstart.
  { eapply loop_inv_nodes, loop_inv_start; [done|].
    by eapply resolve_links_no_id. }
  destruct (number_links_inv _ _ _ _ _ Hstart Hs)
    as [[i' [Hlen Hlinks Hnext Hbound _ Horder]] Hle].
  simpl in Hle. rewrite (resolve_links_length _ _ _ Hres) in Hle.
  assert (∀ k lk, deref (ls_heap s) (ls_links s) !! k = Some lk →
                  ∃ r, ls_links s !! k = Some r ∧ ls_heap s !! r = Some lk)
    as Hderef.
  { intros k lk. unfold deref. rewrite list_lookup_fmap.
    destruct (ls_links s !! k) as [r|] eqn:Hk; [|done]. simpl.
    intros [= <-]. exists r. split; [done|].
    apply list_lookup_lookup_total_lt. rewrite Hlen.
    apply list_elem_of_lookup_2 in Hk.
    eapply elem_of_sublist in Hk; [|done]. apply elem_of_seq in Hk. lia. }
  split.
  - intros k lk q (r & _ & Hr)%Hderef Hq.
    specialize (Hbound _ _ _ Hr Hq). lia.
  - intros k1 k2 lk1 lk2 q1 q2 Hlt (r1 & Hk1 & Hr1)%Hderef
      (r2 & Hk2 & Hr2)%Hderef Hq1 Hq2.
    eapply (Horder r1 r2); [|done..].
    eapply StronglySorted_lt_after; [|done|].
    + eapply StronglySorted_sublist; [done|apply StronglySorted_lt_seq].
    + apply list_elem_of_lookup. exists (k2 - S k1)%nat.
      rewrite lookup_drop. by replace (S k1 + (k2 - S k1))%nat with k2 by lia.
Qed.

Lemma generate_links_ids_increase_witness :
  ∃ links nodes',
    @generate_links scenario_adapters three_router_links three_routers
    = Ok (links, nodes') ∧
    ∀ k lk q, links !! k = Some lk → link_id lk = Some q → (1 ≤ q ≤ 3)%Z.
Proof.
  destruct (@generate_links scenario_adapters three_router_links three_routers)
    as [[links nodes']|e] eqn:Hg; [|by vm_compute in Hg].
  exists links, nodes'. split; [reflexivity|].
  destruct (@generate_links_ids_increase scenario_adapters _ _ _ _ Hg)
    as [Hb _].
  exact Hb.
Defined.

(** *** Numbering when nothing is removed *)

Lemma remove_duplicate_none (heap : list link) t links rest :
  (∀ r, r ∈ rest → t ≠ d_link_of (heap !!! r)) →
  remove_duplicate heap t links rest = links.
Proof.
  induction rest as [|r rest IH]; intros Hno; simpl; [done|].
  rewrite decide_False by (apply Hno; by left).
  apply IH. intros r' Hr'. apply Hno. by right.
Qed.

Lemma numbered_upto_length i resolved :
  length (numbered_upto i resolved) = length resolved.
Proof. apply length_imap. Qed.

Lemma numbered_upto_lookup_total i resolved r :
  (r < length resolved)%nat →
  numbered_upto i resolved !!! r
  = if decide (r < i)%nat then set_link_id (resolved !!! r) (Z.of_nat r + 1)
    else resolved !!! r.
Proof.
  intros Hlt. apply list_lookup_total_correct. unfold numbered_upto.
  rewrite list_lookup_imap, (list_lookup_lookup_total_lt resolved r) by done.
  done.
Qed.

Lemma numbered_upto_step i resolved :
  (i < length resolved)%nat →
  <[i := set_link_id (numbered_upto i resolved !!! i) (Z.of_nat i + 1)]>
    (numbered_upto i resolved)
  = numbered_upto (S i) resolved.
Proof.
  intros Hlt. rewrite numbered_upto_lookup_total by done.
  rewrite decide_False by lia. apply list_eq. intros k.
  unfold numbered_upto. rewrite list_lookup_insert, !list_lookup_imap, length_imap.
  case_decide as Hk.
  - destruct Hk as [<- _]. rewrite (list_lookup_lookup_total_lt resolved i) by done.
    simpl. by rewrite decide_True by lia.
  - destruct (resolved !! k) as [lk|] eqn:Hlk; simpl; [|done].
    assert (k ≠ i) by (intros ->; apply Hk; split; [done|lia]).
    repeat case_decide; try done; exfalso; lia.
Qed.

Lemma number_links_no_removal resolved n i nodes :
  no_shared_endpoint resolved →
  (i + n = length resolved)%nat →
  ∃ nodes',
    number_links n i
      (LoopState (numbered_upto i resolved) (seq 0 (length resolved))
                 (Z.of_nat i + 1) nodes)
    = Ok (LoopState (numbered_upto (length resolved) resolved)
                    (seq 0 (length resolved))
                    (Z.of_nat (length resolved) + 1) nodes').
Proof.
  intros Hno. revert i nodes. induction n as [|n IH]; intros i nodes Hlen; simpl.
  { rewrite Nat.add_0_r in Hlen. subst i. by eexists. }
  rewrite lookup_seq_lt by lia. simpl.
  rewrite remove_duplicate_none.
  - destruct (add_node_connections_total
                (set_link_id (numbered_upto i resolved !!! i) (Z.of_nat i + 1))
                (Z.of_nat i + 1) nodes) as [nodes1 ->]; [done|]. simpl.
    rewrite numbered_upto_step by lia.
    replace (Z.of_nat i + 1 + 1) with (Z.of_nat (S i) + 1) by lia.
    apply IH. lia.
  - intros r Hr%elem_of_seq Heq.
    apply t_link_d_link in Heq as [Hn Hp].
    rewrite !numbered_upto_lookup_total in Hn, Hp by lia.
    rewrite (decide_False (P := (i < i)%nat)) in Hn, Hp by lia.
    apply (Hno (resolved !!! i) (resolved !!! r)).
    + apply list_elem_of_lookup_total_2. lia.
    + apply list_elem_of_lookup_total_2. lia.
    + by destruct (decide (r < i)%nat).
Qed.

(** When no resolved link ends where a resolved link starts, nothing is
    removed: [generate_links] returns every link, in order, numbered
    1, 2, 3, ... *)
Theorem generate_links_numbers_all `{Adapters} self_links0 nodes resolved :
  resolve_links nodes self_links0 = Ok resolved →
  no_shared_endpoint resolved →
  ∃ nodes',
    generate_links self_links0 nodes
    = Ok (imap (λ k lk, set_link_id lk (Z.of_nat k + 1)) resolved, nodes').
Proof.
  intros Hres Hno. unfold generate_links. rewrite Hres. simpl.
  destruct (number_links_no_removal resolved (length resolved) 0 nodes Hno)
    as [nodes' Hn]; [done|].
  assert (numbered_upto 0 resolved = resolved) as Hzero.
  { unfold numbered_upto. rewrite <-(imap_ext (λ _ lk, lk)); [|done].
    clear. induction resolved as [|lk l IH]; simpl; [done|].
    f_equal. by rewrite imap_ext with (g := λ _ lk, lk). }
  rewrite Hzero in Hn. change (Z.of_nat 0 + 1) with 1 in Hn.
  rewrite Hn. simpl.
  exists nodes'. do 2 f_equal.
  rewrite <-(numbered_upto_length (length resolved) resolved) at 2.
  rewrite deref_seq. unfold numbered_upto. apply imap_ext.
  intros k lk Hk. apply lookup_lt_Some in Hk. by rewrite decide_True.
Qed.

Lemma generate_links_numbers_all_witness :
  ∃ nodes',
    @generate_links scenario_adapters [dangling_link] dangling_nodes
    = Ok ([Link "Link from R1 port f0/0 to None port FastEthernet0/0"
             None None 1 1 (Some 1)], nodes').
Proof.
  apply (@generate_links_numbers_all scenario_adapters [dangling_link]
           dangling_nodes
           [Link "Link from R1 port f0/0 to None port FastEthernet0/0"
              None None 1 1 None]).
  - reflexivity.
  - intros a b _ ->%list_elem_of_singleton [Hn _]. discriminate Hn.
Defined.

(** *** Expansion of the shorthand port name *)

Lemma replace_absent old new s : contains old s = false → replace old new s = s.
Proof.
  induction s as [|c s IH]; simpl; [done|].
  case_decide; [done|]. intros Hs. by rewrite IH.
Qed.

(** A shorthand whose first letter does not occur again expands to the
    adapter name of that letter followed by the rest of the name; a name
    [INTERFACE_RE] does not accept is used as it is. *)
Theorem expand_port_shorthand `{Adapters} c rest full :
  PORT_TYPES !! upper c = Some full →
  contains c rest = false →
  expand_port (String c rest)
  = Ok (if INTERFACE_RE_search (String c rest) then full +:+ rest
        else String c rest).
Proof.
  intros Hfull Hrest. unfold expand_port.
  destruct (INTERFACE_RE_search (String c rest)); [|done].
  rewrite Hfull. simpl. rewrite decide_True by done.
  by rewrite replace_absent.
Qed.

Lemma expand_port_shorthand_witness :
  @expand_port scenario_adapters "f0/0" = Ok "FastEthernet0/0".
Proof.
  apply (@expand_port_shorthand scenario_adapters "f"%char "0/0" "FastEthernet");
    reflexivity.
Defined.

(** ** generate_nodes, further *)

Lemma generate_node_extends `{NodeClass} hypervisors device r self n self' :
  generate_node hypervisors device r self = Ok (n, self') →
  self_links self `prefix_of` self_links self' ∧
  self_configs self `prefix_of` self_configs self'.
Proof.
  unfold generate_node, finish_node.
  intros (o & _ & (t & _ & (o' & _ & [= _ <-])%bind_Ok)%bind_Ok)%bind_Ok.
  simpl. split; by apply prefix_app_r.
Qed.

Lemma generate_nodes_loop_extends `{NodeClass} devices0 hypervisors names
    nodes self nodes' self' :
  generate_nodes_loop devices0 hypervisors names nodes self = Ok (nodes', self') →
  length nodes' = (length nodes + length names)%nat ∧
  self_links self `prefix_of` self_links self' ∧
  self_configs self `prefix_of` self_configs self'.
Proof.
  revert nodes self. induction names as [|device rest IH]; intros nodes self; simpl.
  { intros [= <- <-]. split; [lia|]. by split. }
  intros (r & _ & ([n self1] & Hn & Hrest)%bind_Ok)%bind_Ok.
  apply generate_node_extends in Hn as [Hl Hc].
  apply IH in Hrest as (Hlen & Hl' & Hc'). rewrite length_app in Hlen. simpl in Hlen.
  split; [lia|]. split; by etrans.
Qed.

(** [generate_nodes] returns one node per device and only ever extends
    [self.links] and [self.configs]: what was accumulated before the call
    is a prefix of what is there after it. *)
Theorem generate_nodes_accumulates `{NodeClass}
    (devices0 : gmap string device_record) (hypervisors : list hypervisor)
    (self self' : converter config_item) (nodes : list node) :
  generate_nodes devices0 hypervisors self = Ok (nodes, self') →
  length nodes = size devices0 ∧
  self_links self `prefix_of` self_links self' ∧
  self_configs self `prefix_of` self_configs self'.
Proof.
  unfold generate_nodes. intros (Hlen & Hl & Hc)%generate_nodes_loop_extends.
  split; [|done]. rewrite Hlen. simpl. unfold sorted_keys.
  rewrite sorted_length. by rewrite <-size_dom.
Qed.

Lemma generate_nodes_accumulates_witness :
  ∃ nodes self',
    @generate_nodes plain_node_class {[ "R1" := record_no_model ]} ["hv"]
      (Converter 1 [dangling_link] []) = Ok (nodes, self') ∧
    length nodes = 1%nat ∧ [dangling_link] `prefix_of` self_links self'.
Proof.
  destruct (@generate_nodes plain_node_class {[ "R1" := record_no_model ]} ["hv"]
              (Converter 1 [dangling_link] []))
    as [[nodes self']|e] eqn:Hg; [|by vm_compute in Hg].
  exists nodes, self'. split; [reflexivity|].
  destruct (@generate_nodes_accumulates plain_node_class _ _ _ _ _ Hg)
    as (Hlen & Hl & _).
  split; [|exact Hl]. rewrite Hlen. apply map_size_singleton.
Defined.

(** ** The grouper, further *)

Lemma sorted_fixed xs : StronglySorted String.le xs → sorted xs = xs.
Proof.
  intros Hs. apply (StronglySorted_unique String.le); [|done|].
  - apply sorted_StronglySorted.
  - apply sorted_perm.
Qed.

(** The two grouper functions fit together: on the list [get_instances]
    returns for a mapping, [process_topology] finds every instance in that
    mapping and does not raise; the list is sorted already, so the
    positions it counts are the positions in that list. *)
Theorem process_topology_after_get_instances `{IpAddress} `{Models}
    `{TopologyClass} (config : gmap string (gmap string item_value)) sections :
  get_instances config = Ok sections →
  sorted sections = sections ∧
  ∃ devs cf, process_topology sections config = Ok (devs, cf).
Proof.
  unfold get_instances. intros Hg.
  destruct (get_instances_loop_spec (sorted_keys config) [])
    as (out & Hout & Hsub & Hmem).
  rewrite Hout in Hg. injection Hg as <-. simpl. split.
  - apply sorted_fixed. eapply StronglySorted_sublist; [done|].
    apply sorted_StronglySorted.
  - unfold process_topology.
    destruct (process_instances_total config (sorted out)
                (LegacyTopology out config)) as [t Ht].
    + intros i Hi%elem_of_sorted_1. apply Hmem in Hi as [Hi _].
      by apply elem_of_sorted_keys.
    + simpl. rewrite Ht. simpl. by eexists _, _.
Qed.

Lemma process_instances_missing_key `{Models} `{TopologyClass}
    (old_top : gmap string (gmap string item_value)) pre k post t :
  (∀ instance, instance ∈ pre → is_Some (old_top !! instance)) →
  old_top !! k = None →
  process_instances old_top (pre ++ k :: post) t = Raise (KeyError k).
Proof.
  revert t. induction pre as [|i pre IH]; intros t Hpre Hk; simpl.
  - unfold getitem. by rewrite Hk.
  - destruct (Hpre i) as [section Hs]; [by left|].
    unfold getitem at 1. rewrite Hs. simpl. apply IH; [|done].
    intros j Hj. apply Hpre. by right.
Qed.

(** A section key that the raw topology does not have aborts the grouping
    with a [KeyError] for the first such key in sorted order. *)
Theorem process_topology_missing_instance `{Models} `{TopologyClass}
    (sections : list string) (old_top : gmap string (gmap string item_value))
    pre k post :
  sorted sections = pre ++ k :: post →
  (∀ instance, instance ∈ pre → is_Some (old_top !! instance)) →
  old_top !! k = None →
  process_topology sections old_top = Raise (KeyError k).
Proof.
  intros Hs Hpre Hk. unfold process_topology. simpl.
  by rewrite Hs, process_instances_missing_key.
Qed.

Lemma process_topology_missing_instance_witness :
  @process_topology scenario_models (@spec_topology scenario_names)
    ["127.0.0.1:7200"; "10.9.9.9:7200"] one_instance
  = Raise (KeyError "10.9.9.9:7200").
Proof.
  apply (@process_topology_missing_instance scenario_models
           (@spec_topology scenario_names) _ _ []
           "10.9.9.9:7200" ["127.0.0.1:7200"]).
  - vm_compute. reflexivity.
  - by intros i ?%elem_of_nil.
  - reflexivity.
Defined.

Lemma process_topology_after_get_instances_witness :
  ∃ sections devs cf,
    @get_instances scenario_ip _ one_instance = Ok sections ∧
    @process_topology scenario_models (@spec_topology scenario_names)
      sections one_instance = Ok (devs, cf).
Proof.
  destruct (@get_instances scenario_ip _ one_instance) as [sections|e] eqn:Hg;
    [|by vm_compute in Hg].
  destruct (@process_topology_after_get_instances scenario_ip scenario_models
              (@spec_topology scenario_names) one_instance sections Hg)
    as [_ (devs & cf & Hp)].
  exists sections, devs, cf. split; [reflexivity|exact Hp].
Defined.

(** ** Further properties, continued *)

(** For an id that no node carries, the null id among them, the name
    lookups return the empty string. *)
Theorem names_of_unknown_id nid pid nodes :
  (∀ n, n ∈ nodes → Some (node_id n) ≠ nid) →
  get_node_name_from_id nid nodes = "" ∧
  get_port_name_from_id nid pid nodes = "".
Proof.
  intros Hno. split; [|by apply get_port_name_loop_no_node].
  induction nodes as [|n ns IH]; simpl; [done|].
  rewrite decide_False by (apply Hno; by left).
  apply IH. intros m Hm. apply Hno. by right.
Qed.

Lemma names_of_unknown_id_witness :
  get_node_name_from_id None two_clouds = "" ∧
  get_port_name_from_id None (Some 1) two_clouds = "".
Proof. apply names_of_unknown_id. intros n _. discriminate. Defined.

(** The comparison of [t_link] with [d_link] is a comparison of
    endpoints: the two strings are equal exactly when the destination node
    and port ids of the one link are the source node and port ids of the
    other; a null destination never matches. *)
Theorem endpoint_strings_compare lk lk2 :
  (t_link_of lk = d_link_of lk2 ↔
   destination_node_id lk2 = Some (source_node_id lk) ∧
   destination_port_id lk2 = Some (source_port_id lk)) ∧
  (destination_node_id lk2 = None → t_link_of lk ≠ d_link_of lk2).
Proof.
  split; [apply t_link_d_link|].
  intros Hnone Heq. apply t_link_d_link in Heq as [Hd _]. congruence.
Qed.

(** The inner loop removes from the list the first link whose destination
    endpoint is the source endpoint of the current link, and no other:
    [remove], which goes by equality of dictionaries, cannot hit an
    earlier entry. *)
Theorem inner_loop_removes_first_match (heap : list link) lk pre r2 post :
  Forall (λ r, d_link_of (heap !!! r) ≠ t_link_of lk) pre →
  d_link_of (heap !!! r2) = t_link_of lk →
  remove_duplicate heap (t_link_of lk) (pre ++ r2 :: post) (pre ++ r2 :: post)
  = pre ++ post.
Proof. apply remove_duplicate_first_match. Qed.

Lemma inner_loop_removes_first_match_witness :
  remove_duplicate
    [Link "a" (Some 2) (Some 2) 1 1 None; Link "b" (Some 1) (Some 1) 2 2 None]
    (t_link_of (Link "a" (Some 2) (Some 2) 1 1 None)) [0; 1]%nat [0; 1]%nat
  = [0%nat].
Proof.
  apply (inner_loop_removes_first_match
           [Link "a" (Some 2) (Some 2) 1 1 None; Link "b" (Some 1) (Some 1) 2 2 None]
           (Link "a" (Some 2) (Some 2) 1 1 None) [0%nat] 1%nat []).
  - constructor; [|constructor]. vm_compute. discriminate.
  - vm_compute. reflexivity.
Defined.

Lemma resolve_links_raises `{Adapters} nodes pre c post e :
  Forall (λ c', ∃ p, expand_port (cand_dest_port c') = Ok p) pre →
  expand_port (cand_dest_port c) = Raise e →
  resolve_links nodes (pre ++ c :: post) = Raise e.
Proof.
  intros Hpre Hc. induction Hpre as [|c' pre [p Hp] _ IH]; simpl.
  - unfold resolve_link. by rewrite Hc.
  - by rewrite (resolve_link_expanded nodes c' p Hp), IH.
Qed.

(** A candidate whose port name cannot be expanded (the shorthand pattern
    accepts it but its letter is not in the table, or it is empty) aborts
    [generate_links] with the error of the first such candidate, before
    any link is numbered or any port annotated. *)
Theorem generate_links_expansion_error `{Adapters} nodes pre c post e :
  Forall (λ c', ∃ p, expand_port (cand_dest_port c') = Ok p) pre →
  expand_port (cand_dest_port c) = Raise e →
  generate_links (pre ++ c :: post) nodes = Raise e.
Proof.
  intros Hpre Hc. unfold generate_links.
  by rewrite (resolve_links_raises nodes pre c post e).
Qed.

Lemma generate_links_expansion_error_witness :
  @generate_links empty_table_adapters [dangling_link] dangling_nodes
  = Raise (KeyError "F").
Proof.
  apply (@generate_links_expansion_error empty_table_adapters dangling_nodes
           [] dangling_link []).
  - constructor.
  - reflexivity.
Defined.

Lemma device_id_from_name_found_witness :
  ∃ n, n ∈ two_clouds ∧ node_name n = "C2" ∧ node_id n = 2.
Proof.
  destruct (device_id_from_name_found "C2" two_clouds) as [_ Hsome].
  exact (Hsome 2 eq_refl).
Defined.

Lemma endpoint_strings_compare_witness :
  t_link_of (Link "a" (Some 2) (Some 2) 1 1 None)
  ≠ d_link_of (Link "b" None None 2 2 None).
Proof.
  destruct (endpoint_strings_compare (Link "a" (Some 2) (Some 2) 1 1 None)
              (Link "b" None None 2 2 None)) as [_ Hnone].
  exact (Hnone eq_refl).
Defined.

(** ** Unresolved candidates *)








